(** * pq/encode.go: the text-format value codec

    A shallow embedding of [encode.go] of the PostgreSQL driver [pq] and
    the properties of its encoders, decoders and parsers.

    Conventions of the embedding.
    - A Go [string] and a Go [[]byte] are both a [list byte].
    - A Go [int] is a [Z]; values computed from parsed numbers wrap around
      at 64 bits ([wrap64]).  Positions in a string are plain [Z]: they
      never exceed the length of the string by more than a small constant.
    - A call either returns ([Ok]), aborts through the driver's [errorf]
      ([Fault]) or aborts with a Go run-time error ([Panic]): an index or a
      slice expression out of range, a division by zero. *)

From Stdlib Require Import ZArith List Lia Bool String.
From Stdlib Require Import Strings.Byte.
From Stdlib Require Import DecimalString.
From Stdlib Require DecimalPos.
From Equations Require Import Equations.
Import ListNotations.
Local Open Scope Z_scope.

(** ** Byte strings *)

Definition bytes := list byte.

(** A literal of the source, as bytes. *)
Definition B (s : string) : bytes := list_byte_of_string s.

Definition len (s : bytes) : Z := Z.of_nat (List.length s).

Definition byte_val (b : byte) : Z := Z.of_N (Byte.to_N b).

(** [byte(x)]: conversion of an integer to [uint8]. *)
Definition byte_of_Z (z : Z) : byte :=
  match Byte.of_N (Z.to_N (z mod 256)) with
  | Some b => b
  | None => x00
  end.

Fixpoint bytes_eqb (a b : bytes) : bool :=
  match a, b with
  | [], [] => true
  | x :: a', y :: b' => Byte.eqb x y && bytes_eqb a' b'
  | _, _ => false
  end.

(** ** Outcomes of a call *)

Inductive numErr := ErrSyntax | ErrRange.

(** The error values of the Go packages the codec calls. *)
Inductive goError :=
| NumError (func : string) (num : bytes) (err : numErr)
| HexErrLength
| HexInvalidByteError (b : byte)
| TimeParseError (layout value : bytes).

(** An operand of a format string. *)
Inductive fmtArg :=
| AStr (s : bytes)
| AInt (n : Z)
| AErr (e : goError)
| ATypeOf (dynamicType : string).

Inductive runtimeError :=
| IndexOutOfRange (i n : Z)
| SliceBounds (lo hi n : Z)
| DivideByZero.

Inductive outcome (A : Type) :=
| Ok (a : A)
| Fault (format : string) (args : list fmtArg)
| Panic (e : runtimeError).

Arguments Ok {A} a.
Arguments Fault {A} format args.
Arguments Panic {A} e.

Definition bind {A C} (m : outcome A) (k : A -> outcome C) : outcome C :=
  match m with
  | Ok a => k a
  | Fault f args => Fault f args
  | Panic e => Panic e
  end.

Declare Scope go_scope.
Delimit Scope go_scope with go.
Notation "x <- m ;; k" := (bind m (fun x => k))
  (at level 61, m at next level, right associativity) : go_scope.
Notation "' p <- m ;; k" := (bind m (fun x => match x with p => k end))
  (at level 61, p pattern, m at next level, right associativity) : go_scope.
Notation "m ;;; k" := (bind m (fun _ => k))
  (at level 61, right associativity) : go_scope.
Local Open Scope go_scope.

(** Modelled from the spec: [errorf] is declared in another file of the
    driver.  It is the single reporting mechanism of section 7: it formats
    its operands into a descriptive fault and aborts the current call.  The
    embedding keeps the format string and the operands. *)
Definition errorf {A} (format : string) (args : list fmtArg) : outcome A :=
  Fault format args.

(** ** Go integers *)

Definition wrap64 (z : Z) : Z := (z + 2 ^ 63) mod 2 ^ 64 - 2 ^ 63.
Definition int_mul (a b : Z) : Z := wrap64 (a * b).
Definition int_add (a b : Z) : Z := wrap64 (a + b).

(** ** Index and slice expressions *)

(** [s[i]] *)
Definition index (s : bytes) (i : Z) : outcome byte :=
  if (0 <=? i) && (i <? len s) then
    match nth_error s (Z.to_nat i) with
    | Some c => Ok c
    | None => Panic (IndexOutOfRange i (len s))
    end
  else Panic (IndexOutOfRange i (len s)).

(** [s[lo:hi]] *)
Definition slice (s : bytes) (lo hi : Z) : outcome bytes :=
  if (0 <=? lo) && (lo <=? hi) && (hi <=? len s) then
    Ok (firstn (Z.to_nat (hi - lo)) (skipn (Z.to_nat lo) s))
  else Panic (SliceBounds lo hi (len s)).

(** [s[lo:]] and [s[:hi]] *)
Definition slice_from (s : bytes) (lo : Z) : outcome bytes := slice s lo (len s).
Definition slice_to (s : bytes) (hi : Z) : outcome bytes := slice s 0 hi.

(** ** Package [bytes] and [strings] *)

Module strings.

(** [bytes.IndexByte], [strings.IndexByte]: the index of the first [c]
    in [s], or -1. *)
Fixpoint IndexByte (s : bytes) (c : byte) : Z :=
  match s with
  | [] => -1
  | x :: s' =>
      if Byte.eqb x c then 0
      else let i := IndexByte s' c in if i <? 0 then -1 else i + 1
  end.

(** [strings.IndexRune] for a rune below [utf8.RuneSelf]. *)
Definition IndexRune (s : bytes) (r : byte) : Z := IndexByte s r.

Definition inSet (chars : bytes) (c : byte) : bool :=
  existsb (Byte.eqb c) chars.

(** [strings.IndexAny] for a set of ASCII characters: a byte of [s]
    that equals an ASCII character is always a code point of its own. *)
Fixpoint IndexAny (s chars : bytes) : Z :=
  match s with
  | [] => -1
  | x :: s' =>
      if inSet chars x then 0
      else let i := IndexAny s' chars in if i <? 0 then -1 else i + 1
  end.

End strings.

(** ** Package [strconv] *)

Module strconv.

(** The value of a digit character, as [ParseUint] reads it. *)
Definition digitVal (c : byte) : option Z :=
  let v := byte_val c in
  if (48 <=? v) && (v <=? 57) then Some (v - 48)
  else if (97 <=? v) && (v <=? 122) then Some (v - 97 + 10)
  else if (65 <=? v) && (v <=? 90) then Some (v - 65 + 10)
  else None.

(** The digit loop of [ParseUint]: a character that is no digit of the
    base is a syntax error, a value above [maxVal] a range error, in the
    order the characters are read. *)
Fixpoint parseDigits (s : bytes) (base maxVal n : Z) : Z + numErr :=
  match s with
  | [] => inl n
  | c :: s' =>
      match digitVal c with
      | None => inr ErrSyntax
      | Some d =>
          if base <=? d then inr ErrSyntax
          else if maxVal <? n * base + d then inr ErrRange
          else parseDigits s' base maxVal (n * base + d)
      end
  end.

(** [ParseUint(s, base, bitSize)] for an explicit base of 8 or 10. *)
Definition ParseUint (s : bytes) (base bitSize : Z) : Z + numErr :=
  match s with
  | [] => inr ErrSyntax
  | _ => parseDigits s base (2 ^ bitSize - 1) 0
  end.

(** [ParseInt(s, base, bitSize)], [bitSize] between 1 and 64. *)
Definition ParseInt (s : bytes) (base bitSize : Z) : Z + goError :=
  let fnParseInt := "ParseInt"%string in
  match s with
  | [] => inr (NumError fnParseInt s ErrSyntax)
  | c :: s' =>
      let neg := Byte.eqb c "-" in
      let digits := if Byte.eqb c "+" || neg then s' else s in
      match ParseUint digits base bitSize with
      | inr ErrSyntax => inr (NumError fnParseInt s ErrSyntax)
      | inr ErrRange => inr (NumError fnParseInt s ErrRange)
      | inl un =>
          let cutoff := 2 ^ (bitSize - 1) in
          if negb neg && (cutoff <=? un) then inr (NumError fnParseInt s ErrRange)
          else if neg && (cutoff <? un) then inr (NumError fnParseInt s ErrRange)
          else inl (if neg then - un else un)
      end
  end.

Definition IntSize : Z := 64.

(** [Atoi(s)] is [ParseInt(s, 10, 0)] with the result as an [int]. *)
Definition Atoi (s : bytes) : Z + goError :=
  match ParseInt s 10 IntSize with
  | inl n => inl n
  | inr (NumError _ num err) => inr (NumError "Atoi" num err)
  | inr e => inr e
  end.

(** [FormatInt(i, 10)], also the verb [%d]. *)
Definition FormatInt (i : Z) : bytes :=
  B (NilZero.string_of_int (Z.to_int i)).

(** [AppendInt(dst, i, 10)] *)
Definition AppendInt (dst : bytes) (i : Z) : bytes := dst ++ FormatInt i.

(** [FormatBool], also the verb [%t]. *)
Definition FormatBool (b : bool) : bytes :=
  if b then B "true" else B "false".

Definition AppendBool (dst : bytes) (b : bool) : bytes := dst ++ FormatBool b.

End strconv.


(** ** Package [encoding/hex] and the verbs of package [fmt] *)

Module hex.

Definition hextable : bytes := Eval cbv in B "0123456789abcdef".

Definition hexDigit (n : Z) : byte := nth (Z.to_nat n) hextable x00.

(** [EncodeToString]: two lower-case digits per byte, high nibble first. *)
Fixpoint EncodeToString (src : bytes) : bytes :=
  match src with
  | [] => []
  | b :: src' =>
      hexDigit (Z.shiftr (byte_val b) 4) :: hexDigit (Z.land (byte_val b) 15)
        :: EncodeToString src'
  end.

Definition fromHexChar (c : byte) : option Z :=
  let v := byte_val c in
  if (48 <=? v) && (v <=? 57) then Some (v - 48)
  else if (97 <=? v) && (v <=? 102) then Some (v - 97 + 10)
  else if (65 <=? v) && (v <=? 70) then Some (v - 65 + 10)
  else None.

Definition DecodedLen (x : Z) : Z := x / 2.

(** [Decode(dst, src)]: the bytes written to [dst] when it returns no
    error, the error otherwise.  A pair of digits is checked before the
    next pair is read; a last single character is checked before the odd
    length is reported. *)
Fixpoint Decode (src : bytes) : bytes + goError :=
  match src with
  | [] => inl []
  | [p] =>
      match fromHexChar p with
      | None => inr (HexInvalidByteError p)
      | Some _ => inr HexErrLength
      end
  | p :: q :: src' =>
      match fromHexChar p, fromHexChar q with
      | None, _ => inr (HexInvalidByteError p)
      | Some _, None => inr (HexInvalidByteError q)
      | Some a, Some b =>
          match Decode src' with
          | inl dst => inl (byte_of_Z (Z.lor (Z.shiftl a 4) b) :: dst)
          | inr e => inr e
          end
      end
  end.

End hex.

Module fmt.

(** The verb [%x] on a string or a byte slice. *)
Definition Sprintf_x (v : bytes) : bytes := hex.EncodeToString v.

Definition octDigit (n : Z) : byte := byte_of_Z (48 + n).

(** The verb [%03o] on a byte: three octal digits, zero padded. *)
Definition Sprintf_03o (b : byte) : bytes :=
  let v := byte_val b in
  [octDigit (v / 64); octDigit (v / 8 mod 8); octDigit (v mod 8)].

(** The verb [%d]. *)
Definition Sprintf_d (v : Z) : bytes := strconv.FormatInt v.

(** The verb [%t]. *)
Definition Sprintf_t (v : bool) : bytes := strconv.FormatBool v.

End fmt.

(** ** The binary-blob codec: [encodeBytea] and [parseBytea] *)

Definition backslash : byte := Eval cbv in "\"%byte.

(** The marker of the hex format, the Go literal of a backslash and an x. *)
Definition hexMarker : bytes := Eval cbv in B "\x".

(** One byte of the loop of [encodeBytea] in the escape format. *)
Definition encodeBytea_byte (b : byte) : bytes :=
  if Byte.eqb b backslash then [backslash; backslash]
  else if (byte_val b <? 32) || (126 <? byte_val b) then backslash :: fmt.Sprintf_03o b
  else [b].

Fixpoint encodeBytea_escape (v result : bytes) : bytes :=
  match v with
  | [] => result
  | b :: v' => encodeBytea_escape v' (result ++ encodeBytea_byte b)
  end.

Definition encodeBytea (serverVersion : Z) (v : bytes) : bytes :=
  if 90000 <=? serverVersion then hexMarker ++ fmt.Sprintf_x v
  else encodeBytea_escape v [].

(** What one pass through the body of a [for] loop leaves behind. *)
Inductive loopCtl :=
| Continue (s result : bytes)
| Break (result : bytes).

(** The body of the loop of [parseBytea] over the escape format, entered
    with [len(s) > 0]. *)
Definition parseBytea_iter (s result : bytes) : outcome loopCtl :=
  c0 <- index s 0;;
  if Byte.eqb c0 backslash then
    escaped <- (if 2 <=? len s
                then c1 <- index s 1;; Ok (Byte.eqb c1 backslash)
                else Ok false);;
    if escaped then
      s' <- slice_from s 2;;
      Ok (Continue s' (result ++ [backslash]))
    else
      (if len s <? 4 then errorf "invalid bytea sequence %v" [AStr s] else Ok tt);;;
      digits <- slice s 1 4;;
      match strconv.ParseInt digits 8 9 with
      | inr err => errorf "could not parse bytea value: %s" [AErr err]
      | inl r =>
          s' <- slice_from s 4;;
          Ok (Continue s' (result ++ [byte_of_Z r]))
      end
  else
    let i := strings.IndexByte s backslash in
    if i =? -1 then Ok (Break (result ++ s))
    else
      run <- slice_to s i;;
      s' <- slice_from s i;;
      Ok (Continue s' (result ++ run)).

Definition inspect {A} (a : A) : {b | a = b} := exist _ a eq_refl.

(** The loop of [parseBytea] over the escape format: [for len(s) > 0]. *)
Equations? parseBytea_escape (s result : bytes) : outcome bytes
  by wf (List.length s) lt :=
  parseBytea_escape [] result := Ok result;
  parseBytea_escape (c :: tl) result
    with inspect (parseBytea_iter (c :: tl) result) := {
    | exist _ (Ok (Continue s' result')) H => parseBytea_escape s' result';
    | exist _ (Ok (Break result')) _ => Ok result';
    | exist _ (Fault f args) _ => Fault f args;
    | exist _ (Panic e) _ => Panic e }.
Proof.
  (* every pass that continues has consumed at least one byte *)
  clear parseBytea_escape.
  assert (Hsl : forall (s r : bytes) lo hi,
             slice s lo hi = Ok r -> 0 <= lo /\ Z.of_nat (List.length r) = hi - lo).
  { intros s r lo hi. unfold slice, len.
    destruct (Z.leb_spec 0 lo); [|discriminate].
    destruct (Z.leb_spec lo hi); [|discriminate].
    destruct (Z.leb_spec hi (Z.of_nat (List.length s))); [|discriminate].
    cbn. intros [= <-]. rewrite length_firstn, length_skipn. lia. }
  revert H. unfold parseBytea_iter, errorf, slice_from, slice_to, len.
  change (index (c :: tl) 0) with (Ok c). cbn [bind].
  destruct (Byte.eqb c backslash) eqn:E0.
  - destruct (2 <=? _).
    + destruct (index (c :: tl) 1) as [c1| |]; try discriminate. cbn [bind].
      destruct (Byte.eqb c1 backslash).
      * destruct (slice (c :: tl) 2 _) as [t| |] eqn:Es; try discriminate.
        intros [= <- <-]. apply Hsl in Es. cbn [List.length] in *. lia.
      * destruct (_ <? 4); try discriminate. cbn [bind].
        destruct (slice (c :: tl) 1 4) as [d| |]; try discriminate. cbn [bind].
        destruct (strconv.ParseInt d 8 9); try discriminate.
        destruct (slice (c :: tl) 4 _) as [t| |] eqn:Es; try discriminate.
        intros [= <- <-]. apply Hsl in Es. cbn [List.length] in *. lia.
    + cbn [bind]. destruct (_ <? 4); try discriminate. cbn [bind].
      destruct (slice (c :: tl) 1 4) as [d| |]; try discriminate. cbn [bind].
      destruct (strconv.ParseInt d 8 9); try discriminate.
      destruct (slice (c :: tl) 4 _) as [t| |] eqn:Es; try discriminate.
      intros [= <- <-]. apply Hsl in Es. cbn [List.length] in *. lia.
  - cbn [strings.IndexByte]. rewrite E0.
    set (i := strings.IndexByte tl backslash).
    destruct (Z.ltb_spec i 0) as [Hi|Hi]; [discriminate|].
    destruct (Z.eqb_spec (i + 1) (-1)); [lia|].
    destruct (slice (c :: tl) 0 _) as [a| |]; try discriminate. cbn [bind].
    destruct (slice (c :: tl) (i + 1) _) as [t| |] eqn:Es; try discriminate.
    intros [= <- <-]. apply Hsl in Es. cbn [List.length] in *. lia.
Qed.

(** Both the hex format and the legacy escape format are read. *)
Definition parseBytea (s : bytes) : outcome bytes :=
  isHex <- (if 2 <=? len s
            then prefix <- slice_to s 2;; Ok (bytes_eqb prefix hexMarker)
            else Ok false);;
  if isHex then
    s <- slice_from s 2;;
    match hex.Decode s with
    | inl result => Ok result
    | inr err => errorf "%s" [AErr err]
    end
  else parseBytea_escape s [].


(** ** Package [math] *)

Module math.

(** [int(math.Pow(10, float64(n)))].  The powers of ten up to [10^18]
    are exact in a [float64] and fit an [int].  The larger ones are
    outside the range of [int]; the conversion then yields the smallest
    [int] on amd64.  A negative exponent gives a value below one, which
    truncates to zero. *)
Definition Pow10_int (n : Z) : Z :=
  if n <? 0 then 0
  else if n <=? 18 then 10 ^ n
  else - 2 ^ 63.

End math.

(** [a / b] on [int]: the quotient truncates toward zero; a zero divisor
    is a run-time error. *)
Definition int_quo (a b : Z) : outcome Z :=
  if b =? 0 then Panic DivideByZero else Ok (wrap64 (Z.quot a b)).

(** ** Package [time] *)

Module time.

(** A location maps a Unix time to the zone in force then: its
    abbreviation and its offset in seconds east of UTC. *)
Record Location := mkLocation { name : bytes; lookup : Z -> bytes * Z }.

Definition FixedZone (name : bytes) (offset : Z) : Location :=
  {| name := name; lookup := fun _ => (name, offset) |}.

Definition UTC : Location := FixedZone (B "UTC") 0.

(** An instant: seconds since the Unix epoch, nanoseconds within the
    second, and the location it is presented in. *)
Record Time := mkTime { unixSec : Z; nsec : Z; loc : Location }.

Definition secondsPerMinute : Z := 60.
Definition secondsPerHour : Z := 60 * 60.
Definition secondsPerDay : Z := 24 * secondsPerHour.
Definition daysPer400Years : Z := 365 * 400 + 97.
Definition daysPer100Years : Z := 365 * 100 + 24.
Definition daysPer4Years : Z := 365 * 4 + 1.

Definition absoluteZeroYear : Z := -292277022399.
Definition internalYear : Z := 1.

(** [(absoluteZeroYear - internalYear) * 365.2425 * secondsPerDay] *)
Definition absoluteToInternal : Z :=
  (absoluteZeroYear - internalYear) * 31556952.
Definition internalToAbsolute : Z := - absoluteToInternal.
Definition unixToInternal : Z :=
  (1969 * 365 + 1969 / 4 - 1969 / 100 + 1969 / 400) * secondsPerDay.
Definition internalToUnix : Z := - unixToInternal.

Definition January : Z := 1.
Definition February : Z := 2.
Definition March : Z := 3.

Definition daysBefore : list Z :=
  [0; 31; 59; 90; 120; 151; 181; 212; 243; 273; 304; 334; 365].

Definition isLeap (year : Z) : bool :=
  (Z.rem year 4 =? 0) && (negb (Z.rem year 100 =? 0) || (Z.rem year 400 =? 0)).

(** [norm] returns [nhi, nlo] such that [hi * base + lo == nhi * base + nlo]
    and [0 <= nlo < base]. *)
Definition norm (hi lo base : Z) : Z * Z :=
  let '(hi, lo) :=
    if lo <? 0
    then let n := Z.quot (- lo - 1) base + 1 in (hi - n, lo + n * base)
    else (hi, lo) in
  if base <=? lo
  then let n := Z.quot lo base in (hi + n, lo - n * base)
  else (hi, lo).

(** The number of days from the absolute epoch to the start of [year]. *)
Definition daysSinceEpoch (year : Z) : Z :=
  let y := year - absoluteZeroYear in
  let n := y / 400 in
  let y := y - 400 * n in
  let d := daysPer400Years * n in
  let n := y / 100 in
  let y := y - 100 * n in
  let d := d + daysPer100Years * n in
  let n := y / 4 in
  let y := y - 4 * n in
  let d := d + daysPer4Years * n in
  let n := y in
  d + 365 * n.

(** [Date]: the fields may be outside their usual ranges and are
    normalized during the conversion.  The absolute times are the
    unsigned 64-bit values of the library as mathematical integers. *)
Definition Date (year month day hour min sec nsec : Z) (loc : Location) : Time :=
  let m := month - 1 in
  let '(year, m) := norm year m 12 in
  let month := m + 1 in
  let '(sec, nsec) := norm sec nsec 1000000000 in
  let '(min, sec) := norm min sec 60 in
  let '(hour, min) := norm hour min 60 in
  let '(day, hour) := norm day hour 24 in
  let d := daysSinceEpoch year in
  let d := d + nth (Z.to_nat (month - 1)) daysBefore 0 in
  let d := if isLeap year && (March <=? month) then d + 1 else d in
  let d := d + (day - 1) in
  let abs := d * secondsPerDay in
  let abs := abs + (hour * secondsPerHour + min * secondsPerMinute + sec) in
  let unix := abs + (absoluteToInternal + internalToUnix) in
  let '(_, offset) := lookup loc unix in
  let unix :=
    if offset =? 0 then unix
    else
      let utc := unix - offset in
      let '(_, offset) := lookup loc utc in
      unix - offset in
  {| unixSec := unix; nsec := nsec; loc := loc |}.

(** The zero [Time]: January 1, year 1, 00:00:00 UTC. *)
Definition zero : Time := {| unixSec := internalToUnix; nsec := 0; loc := UTC |}.

Definition Zone (t : Time) : bytes * Z := lookup (loc t) (unixSec t).

Definition In (t : Time) (l : Location) : Time :=
  {| unixSec := unixSec t; nsec := nsec t; loc := l |}.

(** The seconds since the absolute epoch, in the location of [t]. *)
Definition abs (t : Time) : Z :=
  let '(_, offset) := lookup (loc t) (unixSec t) in
  unixSec t + offset + (unixToInternal + internalToAbsolute).

(** Year, month and day of an absolute time. *)
Definition absDate (abs : Z) : Z * Z * Z :=
  let d := abs / secondsPerDay in
  let n := d / daysPer400Years in
  let y := 400 * n in
  let d := d - daysPer400Years * n in
  let n := d / daysPer100Years in
  let n := n - Z.shiftr n 2 in
  let y := y + 100 * n in
  let d := d - daysPer100Years * n in
  let n := d / daysPer4Years in
  let y := y + 4 * n in
  let d := d - daysPer4Years * n in
  let n := d / 365 in
  let n := n - Z.shiftr n 2 in
  let y := y + n in
  let d := d - 365 * n in
  let year := y + absoluteZeroYear in
  let day := d in
  if isLeap year && (day =? 31 + 29 - 1) then (year, February, 29)
  else
    let day := if isLeap year && (31 + 29 - 1 <? day) then day - 1 else day in
    let month := day / 31 in
    let fin := nth (Z.to_nat (month + 1)) daysBefore 0 in
    let '(month, begin) :=
      if fin <=? day then (month + 1, fin)
      else (month, nth (Z.to_nat month) daysBefore 0) in
    (year, month + 1, day - begin + 1).

Definition absClock (abs : Z) : Z * Z * Z :=
  let sec := abs mod secondsPerDay in
  let hour := sec / secondsPerHour in
  let sec := sec - hour * secondsPerHour in
  let min := sec / secondsPerMinute in
  let sec := sec - min * secondsPerMinute in
  (hour, min, sec).

Definition Year (t : Time) : Z := let '(y, _, _) := absDate (abs t) in y.
Definition Month (t : Time) : Z := let '(_, m, _) := absDate (abs t) in m.
Definition Day (t : Time) : Z := let '(_, _, d) := absDate (abs t) in d.
Definition Hour (t : Time) : Z := let '(h, _, _) := absClock (abs t) in h.
Definition Minute (t : Time) : Z := let '(_, m, _) := absClock (abs t) in m.
Definition Second (t : Time) : Z := let '(_, _, s) := absClock (abs t) in s.
Definition Nanosecond (t : Time) : Z := nsec t.

End time.

(** ** The timestamp parser: [expect], [mustAtoi] and [parseTs] *)

Definition expect (str char : bytes) (pos : Z) : outcome unit :=
  c <- slice str pos (pos + 1);;
  if negb (bytes_eqb c char)
  then errorf "expected '%v' at position %v; got '%v'" [AStr char; AInt pos; AStr c]
  else Ok tt.

Definition mustAtoi (str : bytes) : outcome Z :=
  match strconv.Atoi str with
  | inr _ => errorf "expected number; got '%v'" [AStr str]
  | inl result => Ok result
  end.

(** [str[pos:pos+n] == lit], evaluated only when [pos < len(str)]. *)
Definition at_is (str : bytes) (pos n : Z) (lit : bytes) : outcome bool :=
  if pos <? len str
  then c <- slice str pos (pos + n);; Ok (bytes_eqb c lit)
  else Ok false.

(** The year, the month and the day; with them the position of the first
    separator. *)
Definition parseTs_date (str : bytes) : outcome (Z * Z * Z * Z) :=
  let monSep := strings.IndexRune str "-" in
  s <- slice_to str monSep;;
  year <- mustAtoi s;;
  let daySep := monSep + 3 in
  s <- slice str (monSep + 1) daySep;;
  month <- mustAtoi s;;
  expect str (B "-") daySep;;;
  let timeSep := daySep + 3 in
  s <- slice str (daySep + 1) timeSep;;
  day <- mustAtoi s;;
  Ok (monSep, year, month, day).

(** The time of day, read when the string is longer than the date. *)
Definition parseTs_clock (str : bytes) (monSep : Z) : outcome (Z * Z * Z) :=
  let daySep := monSep + 3 in
  let timeSep := daySep + 3 in
  if monSep + len (B "01-01") + 1 <? len str then
    expect str (B " ") timeSep;;;
    let minSep := timeSep + 3 in
    expect str (B ":") minSep;;;
    s <- slice str (timeSep + 1) minSep;;
    hour <- mustAtoi s;;
    let secSep := minSep + 3 in
    expect str (B ":") secSep;;;
    s <- slice str (minSep + 1) secSep;;
    minute <- mustAtoi s;;
    let secEnd := secSep + 3 in
    s <- slice str (secSep + 1) secEnd;;
    second <- mustAtoi s;;
    Ok (hour, minute, second)
  else Ok (0, 0, 0).

(** The fractional seconds: the nanoseconds and the advanced
    [remainderIdx]. *)
Definition parseTs_frac (str : bytes) (remainderIdx : Z) : outcome (Z * Z) :=
  isFrac <- at_is str remainderIdx 1 (B ".");;
  if isFrac then
    let fracStart := remainderIdx + 1 in
    tail <- slice_from str fracStart;;
    let fracOff := strings.IndexAny tail (B "-+ ") in
    let fracOff := if fracOff <? 0 then len str - fracStart else fracOff in
    s <- slice str fracStart (fracStart + fracOff);;
    fracSec <- mustAtoi s;;
    scale <- int_quo 1000000000 (math.Pow10_int fracOff);;
    Ok (int_mul fracSec scale, remainderIdx + (fracOff + 1))
  else Ok (0, remainderIdx).

(** The time zone offset: the offset in seconds and the advanced
    [remainderIdx]. *)
Definition parseTs_zone (str : bytes) (remainderIdx : Z) : outcome (Z * Z) :=
  let tzStart := remainderIdx in
  isMinus <- at_is str tzStart 1 (B "-");;
  isPlus <- (if isMinus then Ok false else at_is str tzStart 1 (B "+"));;
  if isMinus || isPlus then
    c <- slice str tzStart (tzStart + 1);;
    tzSign <- (if bytes_eqb c (B "-") then Ok (-1)
               else if bytes_eqb c (B "+") then Ok 1
               else errorf "expected '-' or '+' at position %v; got %v"
                      [AInt tzStart; AStr c]);;
    s <- slice str (tzStart + 1) (tzStart + 3);;
    tzHours <- mustAtoi s;;
    let remainderIdx := remainderIdx + 3 in
    hasMin <- at_is str (tzStart + 3) 1 (B ":");;
    '(tzMin, remainderIdx) <-
      (if hasMin then
         s <- slice str (tzStart + 4) (tzStart + 6);;
         tzMin <- mustAtoi s;;
         Ok (tzMin, remainderIdx + 3)
       else Ok (0, remainderIdx));;
    hasSec <- at_is str (tzStart + 6) 1 (B ":");;
    '(tzSec, remainderIdx) <-
      (if hasSec then
         s <- slice str (tzStart + 7) (tzStart + 9);;
         tzSec <- mustAtoi s;;
         Ok (tzSec, remainderIdx + 3)
       else Ok (0, remainderIdx));;
    let tzOff :=
      int_add (int_add (int_mul (int_mul tzSign tzHours) (60 * 60))
                       (int_mul tzMin 60))
              tzSec in
    Ok (tzOff, remainderIdx)
  else Ok (0, remainderIdx).

(** The BC designation: the sign of the year and the advanced
    [remainderIdx]. *)
Definition parseTs_era (str : bytes) (remainderIdx : Z) : outcome (Z * Z) :=
  isBC <- at_is str remainderIdx 3 (B " BC");;
  if isBC then Ok (-1, remainderIdx + 3) else Ok (1, remainderIdx).

(** The fields read from a timestamp. *)
Record tsFields := mkTsFields {
  tsYear : Z; tsMonth : Z; tsDay : Z;
  tsHour : Z; tsMinute : Z; tsSecond : Z;
  tsNanoSec : Z; tsTzOff : Z; tsBcSign : Z }.

(** [parseTs] up to the test for the end of the input: the fields and the
    final [remainderIdx]. *)
Definition parseTs_sections (str : bytes) : outcome (tsFields * Z) :=
  '(monSep, year, month, day) <- parseTs_date str;;
  '(hour, minute, second) <- parseTs_clock str monSep;;
  let remainderIdx := monSep + len (B "01-01 00:00:00") + 1 in
  '(nanoSec, remainderIdx) <- parseTs_frac str remainderIdx;;
  '(tzOff, remainderIdx) <- parseTs_zone str remainderIdx;;
  '(bcSign, remainderIdx) <- parseTs_era str remainderIdx;;
  Ok (mkTsFields year month day hour minute second nanoSec tzOff bcSign,
      remainderIdx).

(** The instant of the fields, in the session's location when that agrees
    with the offset read. *)
Definition parseTs_instant (currentLocation : option time.Location)
    (f : tsFields) : time.Time :=
  let tzOff := tsTzOff f in
  let t := time.Date (int_mul (tsBcSign f) (tsYear f)) (tsMonth f) (tsDay f)
             (tsHour f) (tsMinute f) (tsSecond f) (tsNanoSec f)
             (time.FixedZone [] tzOff) in
  match currentLocation with
  | Some l =>
      let lt := time.In t l in
      let '(_, newOff) := time.Zone lt in
      if newOff =? tzOff then lt else t
  | None => t
  end.

Definition parseTs (currentLocation : option time.Location) (str : bytes)
  : outcome time.Time :=
  '(f, remainderIdx) <- parseTs_sections str;;
  (if remainderIdx <? len str
   then rest <- slice_from str remainderIdx;;
        errorf "expected end of input, got %v" [AStr rest]
   else Ok tt);;;
  Ok (parseTs_instant currentLocation f).

(** ** Type identifiers, values and the connection's parameters *)

Module oid.

Definition Oid := Z.

(** Modelled from the spec: the table of type identifiers is declared in
    the driver's package [oid], generated from the server's catalogue.
    These are the identifiers section 3 recognizes. *)
Definition T_bool : Oid := 16.
Definition T_bytea : Oid := 17.
Definition T_int8 : Oid := 20.
Definition T_int2 : Oid := 21.
Definition T_int4 : Oid := 23.
Definition T_float4 : Oid := 700.
Definition T_float8 : Oid := 701.
Definition T_date : Oid := 1082.
Definition T_time : Oid := 1083.
Definition T_timestamp : Oid := 1114.
Definition T_timestamptz : Oid := 1184.
Definition T_timetz : Oid := 1266.

End oid.

(** Modelled from the spec: [parameterStatus] is declared in another file
    of the driver; it is the connection context of section 3, with the
    server's version and the session's location, if any. *)
Record parameterStatus := mkParameterStatus {
  serverVersion : Z;
  currentLocation : option time.Location }.

(** A floating-point number is its IEEE 754 bit pattern. *)
Definition float32 := Z.
Definition float64 := Z.

(** The dynamic value of an [interface{}]: the kinds the codec knows, the
    nil interface, and any other dynamic type, by its name. *)
Inductive value :=
| VInt64 (v : Z)
| VFloat32 (v : float32)
| VFloat64 (v : float64)
| VBytes (v : bytes)
| VString (v : bytes)
| VBool (v : bool)
| VTime (v : time.Time)
| VNil
| VOther (dynamicType : string).

(** ** Escaping for the text format of COPY *)

Definition needsEscape (c : byte) : bool :=
  Byte.eqb c backslash || Byte.eqb c x0a || Byte.eqb c x0d || Byte.eqb c x09.

(** The first loop of [appendEscapedText], from index [i] on the
    remaining [text]: the position of the first character to escape. *)
Fixpoint appendEscapedText_scan (text : bytes) (i : Z) : option Z :=
  match text with
  | [] => None
  | c :: text' =>
      if needsEscape c then Some i else appendEscapedText_scan text' (i + 1)
  end.

(** The body of the second loop. *)
Definition appendEscapedText_char (result : bytes) (c : byte) : bytes :=
  if Byte.eqb c backslash then result ++ [backslash; backslash]
  else if Byte.eqb c x0a then result ++ [backslash; "n"%byte]
  else if Byte.eqb c x0d then result ++ [backslash; "r"%byte]
  else if Byte.eqb c x09 then result ++ [backslash; "t"%byte]
  else result ++ [c].

Fixpoint appendEscapedText_loop (text result : bytes) : bytes :=
  match text with
  | [] => result
  | c :: text' => appendEscapedText_loop text' (appendEscapedText_char result c)
  end.

Definition appendEscapedText (buf text : bytes) : bytes :=
  match appendEscapedText_scan text 0 with
  | None => buf ++ text
  | Some startPos =>
      let result := buf ++ firstn (Z.to_nat startPos) text in
      appendEscapedText_loop (skipn (Z.to_nat startPos) text) result
  end.

(** ** The dispatch on the kind of value and on the type identifier *)

Section Codec.

(** The conversions of the Go library the codec leaves to it. *)

(** [strconv.FormatFloat(f, fmt, prec, bitSize)] *)
Variable FormatFloat : float64 -> byte -> Z -> Z -> bytes.
(** [float64(v)] of a [float32] *)
Variable float64_of_float32 : float32 -> float64.
(** [strconv.ParseFloat(s, bitSize)] *)
Variable ParseFloat : bytes -> Z -> float64 + goError.
(** [t.Format(layout)] *)
Variable time_Format : time.Time -> bytes -> bytes.
(** [time.Parse(layout, value)] *)
Variable time_Parse : bytes -> bytes -> time.Time + goError.

Definition RFC3339Nano : bytes := B "2006-01-02T15:04:05.999999999Z07:00".

(** [strconv.AppendFloat] appends the string form of [f], as generated
    by [FormatFloat], to [dst]. *)
Definition AppendFloat (dst : bytes) (f : float64) (fmt : byte) (prec bitSize : Z)
  : bytes :=
  dst ++ FormatFloat f fmt prec bitSize.

(** The verbs [%.9f] and [%.17f]. *)
Definition Sprintf_f (prec : Z) (v : float64) (bitSize : Z) : bytes :=
  FormatFloat v "f" prec bitSize.

Definition encode (ps : parameterStatus) (x : value) (pgtypOid : oid.Oid)
  : outcome bytes :=
  match x with
  | VInt64 v => Ok (fmt.Sprintf_d v)
  | VFloat32 v => Ok (Sprintf_f 9 (float64_of_float32 v) 32)
  | VFloat64 v => Ok (Sprintf_f 17 v 64)
  | VBytes v =>
      if pgtypOid =? oid.T_bytea then Ok (encodeBytea (serverVersion ps) v)
      else Ok v
  | VString v =>
      if pgtypOid =? oid.T_bytea then Ok (hexMarker ++ fmt.Sprintf_x v)
      else Ok v
  | VBool v => Ok (fmt.Sprintf_t v)
  | VTime v => Ok (time_Format v RFC3339Nano)
  | VNil => errorf "encode: unknown type for %T" [ATypeOf "<nil>"]
  | VOther t => errorf "encode: unknown type for %T" [ATypeOf t]
  end.

Definition mustParse (f : bytes) (typ : oid.Oid) (s : bytes) : outcome time.Time :=
  let str := s in
  c <- index str (len str - 2);;
  let str := if Byte.eqb c "." then str ++ B "0" else str in
  colon <- (if (typ =? oid.T_timestamptz) || (typ =? oid.T_timetz)
            then c <- index str (len str - 3);; Ok (Byte.eqb c ":")
            else Ok false);;
  let f := if colon then f ++ B ":00" else f in
  match time_Parse f str with
  | inr err => errorf "decode: %s" [AErr err]
  | inl t => Ok t
  end.

Definition decode (ps : parameterStatus) (s : bytes) (typ : oid.Oid)
  : outcome value :=
  if typ =? oid.T_bytea then
    r <- parseBytea s;; Ok (VBytes r)
  else if typ =? oid.T_timestamptz then
    t <- parseTs (currentLocation ps) s;; Ok (VTime t)
  else if (typ =? oid.T_timestamp) || (typ =? oid.T_date) then
    t <- parseTs None s;; Ok (VTime t)
  else if typ =? oid.T_time then
    t <- mustParse (B "15:04:05") typ s;; Ok (VTime t)
  else if typ =? oid.T_timetz then
    t <- mustParse (B "15:04:05-07") typ s;; Ok (VTime t)
  else if typ =? oid.T_bool then
    c <- index s 0;; Ok (VBool (Byte.eqb c "t"))
  else if (typ =? oid.T_int8) || (typ =? oid.T_int2) || (typ =? oid.T_int4) then
    match strconv.ParseInt s 10 64 with
    | inr err => errorf "%s" [AErr err]
    | inl i => Ok (VInt64 i)
    end
  else if (typ =? oid.T_float4) || (typ =? oid.T_float8) then
    let bits := if typ =? oid.T_float4 then 32 else 64 in
    match ParseFloat s bits with
    | inr err => errorf "%s" [AErr err]
    | inl f => Ok (VFloat64 f)
    end
  else Ok (VBytes s).

(** [appendEncodedText] encodes an item in the text format of COPY and
    appends it to [buf]. *)
Definition appendEncodedText (ps : parameterStatus) (buf : bytes) (x : value)
  : outcome bytes :=
  match x with
  | VInt64 v => Ok (strconv.AppendInt buf v)
  | VFloat32 v => Ok (AppendFloat buf (float64_of_float32 v) "f" (-1) 32)
  | VFloat64 v => Ok (AppendFloat buf v "f" (-1) 64)
  | VBytes v => Ok (buf ++ encodeBytea (serverVersion ps) v)
  | VString v => Ok (appendEscapedText buf v)
  | VBool v => Ok (strconv.AppendBool buf v)
  | VTime v => Ok (buf ++ time_Format v RFC3339Nano)
  | VNil => Ok (buf ++ [backslash; "N"%byte])
  | VOther t => errorf "encode: unknown type for %T" [ATypeOf t]
  end.

End Codec.

(** ** [NullTime] *)

(** A [time.Time] that may be null. *)
Record NullTime := mkNullTime { Time : time.Time; Valid : bool }.

(** [Scan] assigns through its receiver: the receiver after the call, and
    the error returned. *)
Definition Scan (nt : NullTime) (v : value) : NullTime * option goError :=
  let '(t, ok) :=
    match v with
    | VTime t => (t, true)
    | _ => (time.zero, false)
    end in
  ({| Time := t; Valid := ok |}, None).

(** [Value] returns a [driver.Value] and an error. *)
Definition Value (nt : NullTime) : value * option goError :=
  if negb (Valid nt) then (VNil, None)
  else (VTime (Time nt), None).

(** * Properties *)

(** ** Lengths, indices and slices *)

Lemma len_nil : len [] = 0.
Proof. reflexivity. Qed.

Lemma len_cons (x : byte) (s : bytes) : len (x :: s) = 1 + len s.
Proof. unfold len. cbn [List.length]. lia. Qed.

Lemma len_app (a b : bytes) : len (a ++ b) = len a + len b.
Proof. unfold len. rewrite length_app. lia. Qed.

Lemma len_nonneg (s : bytes) : 0 <= len s.
Proof. unfold len. lia. Qed.

Lemma bytes_eqb_eq (a b : bytes) : bytes_eqb a b = true <-> a = b.
Proof.
  revert b. induction a as [|x a IH]; intros [|y b]; cbn; split;
    try discriminate; try reflexivity.
  - intros H. apply andb_true_iff in H as [Hx Hab].
    apply Byte.byte_dec_bl in Hx. apply IH in Hab. congruence.
  - intros [= -> ->]. apply andb_true_iff. split.
    + now apply Byte.byte_dec_lb.
    + now apply IH.
Qed.

Lemma bytes_eqb_refl (a : bytes) : bytes_eqb a a = true.
Proof. now apply bytes_eqb_eq. Qed.

Lemma byte_eqb_refl (b : byte) : Byte.eqb b b = true.
Proof. now apply Byte.byte_dec_lb. Qed.

Lemma byte_eqb_neq (a b : byte) : a <> b -> Byte.eqb a b = false.
Proof.
  intros H. destruct (Byte.eqb a b) eqn:E; [|reflexivity].
  apply Byte.byte_dec_bl in E. contradiction.
Qed.

Lemma slice_ok (s : bytes) (lo hi : Z) :
  0 <= lo -> lo <= hi -> hi <= len s ->
  slice s lo hi = Ok (firstn (Z.to_nat (hi - lo)) (skipn (Z.to_nat lo) s)).
Proof.
  intros H1 H2 H3. unfold slice.
  destruct (Z.leb_spec 0 lo); [|lia].
  destruct (Z.leb_spec lo hi); [|lia].
  destruct (Z.leb_spec hi (len s)); [|lia].
  reflexivity.
Qed.

Lemma slice_panic (s : bytes) (lo hi : Z) :
  lo < 0 \/ hi < lo \/ len s < hi ->
  slice s lo hi = Panic (SliceBounds lo hi (len s)).
Proof.
  intros H. unfold slice.
  destruct (Z.leb_spec 0 lo); cbn; [|reflexivity].
  destruct (Z.leb_spec lo hi); cbn; [|reflexivity].
  destruct (Z.leb_spec hi (len s)); cbn; [lia|reflexivity].
Qed.

Lemma slice_inv (s : bytes) (lo hi : Z) (r : bytes) :
  slice s lo hi = Ok r ->
  0 <= lo /\ lo <= hi /\ hi <= len s /\ len r = hi - lo /\
  r = firstn (Z.to_nat (hi - lo)) (skipn (Z.to_nat lo) s).
Proof.
  unfold slice.
  destruct (Z.leb_spec 0 lo); [|discriminate].
  destruct (Z.leb_spec lo hi); [|discriminate].
  destruct (Z.leb_spec hi (len s)); [|discriminate].
  cbn. intros [= <-]. unfold len in *.
  rewrite length_firstn, length_skipn. repeat split; lia.
Qed.

(** A slice is either in range or a run-time error, never a fault. *)
Lemma slice_cases (s : bytes) (lo hi : Z) :
  (exists r, slice s lo hi = Ok r) \/
  slice s lo hi = Panic (SliceBounds lo hi (len s)).
Proof.
  unfold slice. destruct (_ && _); [left; eexists; reflexivity | now right].
Qed.

(** The middle of three concatenated pieces, by its positions. *)
Lemma slice_app3 (a m r : bytes) :
  slice (a ++ m ++ r) (len a) (len a + len m) = Ok m.
Proof.
  rewrite slice_ok.
  - f_equal. unfold len. rewrite Nat2Z.id.
    rewrite skipn_app, skipn_all, Nat.sub_diag. cbn [skipn app].
    replace (Z.to_nat _) with (List.length m) by lia.
    rewrite firstn_app, firstn_all, Nat.sub_diag. cbn. apply app_nil_r.
  - apply len_nonneg.
  - pose proof (len_nonneg m). lia.
  - rewrite !len_app. pose proof (len_nonneg r). lia.
Qed.

Lemma slice_to_app (a r : bytes) : slice_to (a ++ r) (len a) = Ok a.
Proof. exact (slice_app3 [] a r). Qed.

Lemma slice_from_app (a r : bytes) : slice_from (a ++ r) (len a) = Ok r.
Proof.
  unfold slice_from. pose proof (slice_app3 a r []) as H.
  rewrite app_nil_r in H. rewrite <- H. f_equal. now rewrite len_app.
Qed.

Lemma index_app (a : bytes) (c : byte) (r : bytes) :
  index (a ++ c :: r) (len a) = Ok c.
Proof.
  unfold index. rewrite len_app, len_cons.
  pose proof (len_nonneg a). pose proof (len_nonneg r).
  destruct (Z.leb_spec 0 (len a)); [|lia].
  destruct (Z.ltb_spec (len a) (len a + (1 + len r))); [|lia].
  cbn. unfold len. rewrite Nat2Z.id, nth_error_app2, Nat.sub_diag by lia.
  reflexivity.
Qed.

Lemma index_cons_0 (x : byte) (s : bytes) : index (x :: s) 0 = Ok x.
Proof. reflexivity. Qed.

Lemma index_nil (i : Z) : index [] i = Panic (IndexOutOfRange i 0).
Proof.
  unfold index. cbn. destruct (0 <=? i), (i <? 0); cbn; try reflexivity.
  destruct (Z.to_nat i); reflexivity.
Qed.

Lemma IndexByte_range (s : bytes) (c : byte) :
  strings.IndexByte s c = -1 \/ 0 <= strings.IndexByte s c < len s.
Proof.
  induction s as [|x s IH]; [now left|].
  rewrite len_cons. cbn [strings.IndexByte].
  destruct (Byte.eqb x c); [right; pose proof (len_nonneg s); lia|].
  destruct IH as [->|IH]; [now left|].
  destruct (Z.ltb_spec (strings.IndexByte s c) 0); lia.
Qed.

(** ** The unfolding of the loop of [parseBytea] *)

Lemma parseBytea_escape_step (s result : bytes) :
  parseBytea_escape s result =
  match s with
  | [] => Ok result
  | _ :: _ =>
      match parseBytea_iter s result with
      | Ok (Continue s' result') => parseBytea_escape s' result'
      | Ok (Break result') => Ok result'
      | Fault f args => Fault f args
      | Panic e => Panic e
      end
  end.
Proof.
  funelim (parseBytea_escape s result); [reflexivity| | | |];
    match goal with
    | H : parseBytea_iter _ _ = _ |- _ => rewrite H; reflexivity
    end.
Qed.

Lemma index_1 (a c : byte) (r : bytes) : index (a :: c :: r) 1 = Ok c.
Proof. exact (index_app [a] c r). Qed.

Lemma slice_from_2 (a c : byte) (r : bytes) : slice_from (a :: c :: r) 2 = Ok r.
Proof. exact (slice_from_app [a; c] r). Qed.

Lemma slice_from_4 (a d1 d2 d3 : byte) (r : bytes) :
  slice_from (a :: d1 :: d2 :: d3 :: r) 4 = Ok r.
Proof. exact (slice_from_app [a; d1; d2; d3] r). Qed.

Lemma slice_1_4 (a d1 d2 d3 : byte) (r : bytes) :
  slice (a :: d1 :: d2 :: d3 :: r) 1 4 = Ok [d1; d2; d3].
Proof. exact (slice_app3 [a] [d1; d2; d3] r). Qed.

Lemma slice_to_2 (a c : byte) (r : bytes) : slice_to (a :: c :: r) 2 = Ok [a; c].
Proof. exact (slice_to_app [a; c] r). Qed.

(** ** One byte through the codec *)

Lemma byte_of_Z_val (b : byte) : byte_of_Z (byte_val b) = b.
Proof. destruct b; reflexivity. Qed.

Lemma byte_val_range (b : byte) : 0 <= byte_val b < 256.
Proof. destruct b; cbv; split; congruence. Qed.

Lemma ParseInt_Sprintf_03o (b : byte) :
  strconv.ParseInt (fmt.Sprintf_03o b) 8 9 = inl (byte_val b).
Proof. destruct b; reflexivity. Qed.

Lemma Sprintf_03o_head (b : byte) :
  Byte.eqb (fmt.octDigit (byte_val b / 64)) backslash = false /\
  Byte.eqb (fmt.octDigit (byte_val b / 64)) "x" = false.
Proof. destruct b; split; reflexivity. Qed.

Lemma hex_byte_roundtrip (b : byte) :
  let hi := hex.hexDigit (Z.shiftr (byte_val b) 4) in
  let lo := hex.hexDigit (Z.land (byte_val b) 15) in
  exists x y, hex.fromHexChar hi = Some x /\ hex.fromHexChar lo = Some y /\
              byte_of_Z (Z.lor (Z.shiftl x 4) y) = b.
Proof. destruct b; do 2 eexists; repeat split. Qed.

Lemma hex_Decode_Encode (v : bytes) : hex.Decode (hex.EncodeToString v) = inl v.
Proof.
  induction v as [|b v IH]; [reflexivity|].
  cbn [hex.EncodeToString hex.Decode].
  destruct (hex_byte_roundtrip b) as (x & y & -> & -> & Hb).
  rewrite IH, Hb. reflexivity.
Qed.

(** ** The steps of the escape loop on the three shapes the encoder emits *)

Lemma escape_step_backslash (rest acc : bytes) :
  parseBytea_escape (backslash :: backslash :: rest) acc
  = parseBytea_escape rest (acc ++ [backslash]).
Proof.
  rewrite parseBytea_escape_step. unfold parseBytea_iter.
  rewrite index_cons_0. cbn [bind]. rewrite byte_eqb_refl.
  rewrite !len_cons. pose proof (len_nonneg rest).
  destruct (Z.leb_spec 2 (1 + (1 + len rest))); [|lia].
  rewrite index_1. cbn [bind]. rewrite byte_eqb_refl.
  rewrite slice_from_2. reflexivity.
Qed.

Lemma escape_step_octal (b : byte) (rest acc : bytes) :
  parseBytea_escape (backslash :: fmt.Sprintf_03o b ++ rest) acc
  = parseBytea_escape rest (acc ++ [b]).
Proof.
  rewrite parseBytea_escape_step.
  pose proof (ParseInt_Sprintf_03o b) as HP.
  destruct (Sprintf_03o_head b) as [Hh _].
  unfold fmt.Sprintf_03o in *. cbn [app]. unfold parseBytea_iter.
  rewrite index_cons_0. cbn [bind]. rewrite byte_eqb_refl.
  rewrite !len_cons. pose proof (len_nonneg rest).
  destruct (Z.leb_spec 2 (1 + (1 + (1 + (1 + len rest))))); [|lia].
  rewrite index_1. cbn [bind]. rewrite Hh.
  destruct (Z.ltb_spec (1 + (1 + (1 + (1 + len rest)))) 4); [lia|].
  cbn [bind]. rewrite slice_1_4. cbn [bind]. rewrite HP.
  rewrite slice_from_4. cbn [bind]. now rewrite byte_of_Z_val.
Qed.

(** Copying a run of raw bytes at once is copying its first byte and then
    the rest. *)
Lemma escape_step_raw (b : byte) (rest acc : bytes) :
  Byte.eqb b backslash = false ->
  parseBytea_escape (b :: rest) acc = parseBytea_escape rest (acc ++ [b]).
Proof.
  intros Hb. rewrite parseBytea_escape_step. unfold parseBytea_iter.
  rewrite index_cons_0. cbn [bind]. rewrite Hb.
  cbn [strings.IndexByte]. rewrite Hb.
  destruct (IndexByte_range rest backslash) as [Hi|Hi].
  - (* no backslash any more: the loop breaks *)
    rewrite Hi. cbn.
    rewrite (parseBytea_escape_step rest). destruct rest as [|c tl].
    + reflexivity.
    + unfold parseBytea_iter. rewrite index_cons_0. cbn [bind].
      cbn [strings.IndexByte] in Hi |- *.
      destruct (Byte.eqb c backslash); [discriminate|].
      destruct (Z.ltb_spec (strings.IndexByte tl backslash) 0); [|lia].
      cbn. now rewrite <- app_assoc.
  - set (i := strings.IndexByte rest backslash) in *.
    destruct (Z.ltb_spec i 0); [lia|].
    destruct (Z.eqb_spec (i + 1) (-1)); [lia|].
    unfold slice_to, slice_from.
    rewrite !slice_ok by (rewrite ?len_cons; lia). cbn [bind].
    replace (Z.to_nat (i + 1 - 0)) with (S (Z.to_nat i)) by lia.
    replace (Z.to_nat (i + 1)) with (S (Z.to_nat i)) by lia.
    cbn [skipn firstn]. rewrite len_cons.
    replace (Z.to_nat (1 + len rest - (i + 1))) with (Z.to_nat (len rest - i)) by lia.
    destruct rest as [|c tl]; [rewrite len_nil in Hi; lia|].
    subst i. cbn [strings.IndexByte] in *.
    destruct (Byte.eqb c backslash) eqn:Hc.
    + (* the run ends right after [b] *)
      change (Z.to_nat 0) with 0%nat. cbn [firstn skipn].
      rewrite Z.sub_0_r. unfold len. rewrite Nat2Z.id, firstn_all. reflexivity.
    + rewrite (parseBytea_escape_step (c :: tl)). unfold parseBytea_iter.
      rewrite index_cons_0. cbn [bind]. rewrite Hc.
      cbn [strings.IndexByte]. rewrite Hc.
      set (j := strings.IndexByte tl backslash) in *.
      destruct (Z.ltb_spec j 0); [lia|].
      destruct (Z.eqb_spec (j + 1) (-1)); [lia|].
      unfold slice_to, slice_from.
      rewrite !slice_ok by lia. cbn [bind].
      replace (Z.to_nat (j + 1 - 0)) with (Z.to_nat (j + 1)) by lia.
      now rewrite <- app_assoc.
Qed.

(** ** Round trip *)

Lemma encodeBytea_escape_flat (v result : bytes) :
  encodeBytea_escape v result = result ++ flat_map encodeBytea_byte v.
Proof.
  revert result. induction v as [|b v IH]; intros result; cbn.
  - now rewrite app_nil_r.
  - now rewrite IH, <- app_assoc.
Qed.

Lemma parseBytea_escape_encoded (v acc : bytes) :
  parseBytea_escape (flat_map encodeBytea_byte v) acc = Ok (acc ++ v).
Proof.
  revert acc. induction v as [|b v IH]; intros acc; cbn [flat_map].
  - rewrite parseBytea_escape_step, app_nil_r. reflexivity.
  - unfold encodeBytea_byte at 1.
    destruct (Byte.eqb b backslash) eqn:Hb.
    + apply Byte.byte_dec_bl in Hb. subst b. cbn [app].
      rewrite escape_step_backslash, IH, <- app_assoc. reflexivity.
    + destruct ((byte_val b <? 32) || (126 <? byte_val b)).
      * cbn [app]. rewrite escape_step_octal, IH, <- app_assoc. reflexivity.
      * cbn [app]. rewrite escape_step_raw, IH, <- app_assoc by assumption.
        reflexivity.
Qed.

(** The escape format never starts with the marker of the hex format. *)
Lemma encoded_escape_not_hex (v : bytes) :
  let e := flat_map encodeBytea_byte v in
  (if 2 <=? len e
   then prefix <- slice_to e 2;; Ok (bytes_eqb prefix hexMarker)
   else Ok false) = Ok false.
Proof.
  cbv zeta. destruct v as [|b v]; [reflexivity|].
  cbn [flat_map]. set (rest := flat_map encodeBytea_byte v).
  unfold encodeBytea_byte.
  destruct (Byte.eqb b backslash) eqn:Hb.
  - cbn [app]. rewrite slice_to_2. cbn. now destruct (2 <=? _).
  - destruct ((byte_val b <? 32) || (126 <? byte_val b)).
    + unfold fmt.Sprintf_03o. cbn [app]. rewrite slice_to_2.
      destruct (Sprintf_03o_head b) as [_ Hx].
      cbn [bind bytes_eqb hexMarker]. rewrite Hx. cbn.
      now destruct (2 <=? _).
    + cbn [app]. destruct rest as [|c r].
      * reflexivity.
      * rewrite slice_to_2. cbn [bind bytes_eqb hexMarker].
        change "\"%byte with backslash. rewrite Hb. cbn. now destruct (2 <=? _).
Qed.

Lemma parseBytea_hex_encoded (v : bytes) :
  parseBytea (hexMarker ++ fmt.Sprintf_x v) = Ok v.
Proof.
  unfold parseBytea, hexMarker, fmt.Sprintf_x. cbn [app].
  rewrite !len_cons. pose proof (len_nonneg (hex.EncodeToString v)).
  destruct (Z.leb_spec 2 (1 + (1 + len (hex.EncodeToString v)))); [|lia].
  rewrite slice_to_2. cbn [bind]. rewrite bytes_eqb_refl.
  rewrite slice_from_2. cbn [bind]. now rewrite hex_Decode_Encode.
Qed.

(** C2. Decoding the encoding of a byte sequence returns the byte
    sequence, whatever bytes it holds, in both capability regimes: with a
    server version of 90000 or more (hex format) and below (escape
    format). *)
Theorem parseBytea_encodeBytea (serverVersion : Z) (b : bytes) :
  parseBytea (encodeBytea serverVersion b) = Ok b.
Proof.
  unfold encodeBytea. destruct (90000 <=? serverVersion).
  - apply parseBytea_hex_encoded.
  - rewrite encodeBytea_escape_flat. cbn [app]. unfold parseBytea.
    rewrite (encoded_escape_not_hex b). cbn [bind].
    apply parseBytea_escape_encoded.
Qed.

(** ** The codec on concrete inputs *)

Example Atoi_examples :
  strconv.Atoi (B "2024") = inl 2024 /\
  strconv.Atoi (B "-7") = inl (-7) /\
  strconv.Atoi (B "+7") = inl 7 /\
  strconv.Atoi [] = inr (NumError "Atoi" [] ErrSyntax) /\
  strconv.Atoi (B "9223372036854775807") = inl 9223372036854775807 /\
  strconv.Atoi (B "9223372036854775808")
    = inr (NumError "Atoi" (B "9223372036854775808") ErrRange) /\
  strconv.Atoi (B "-9223372036854775808") = inl (-9223372036854775808).
Proof. repeat split; reflexivity. Qed.

Example FormatInt_examples :
  strconv.FormatInt 0 = B "0" /\ strconv.FormatInt (-120) = B "-120".
Proof. split; reflexivity. Qed.

Example Date_examples :
  time.unixSec (time.Date 1970 1 1 0 0 0 0 time.UTC) = 0 /\
  time.unixSec (time.Date 2024 3 5 13 4 5 0 time.UTC) = 1709643845 /\
  (let t := time.Date 2024 2 30 25 61 61 0 time.UTC in
   (time.Year t, time.Month t, time.Day t, time.Hour t, time.Minute t, time.Second t))
  = (2024, 3, 2, 2, 2, 1).
Proof. repeat split; vm_compute; reflexivity. Qed.

Example encodeBytea_examples :
  encodeBytea 80000 [x00; x5c; x7f; x80; "a"%byte]
    = backslash :: B "000" ++ [backslash; backslash] ++ backslash :: B "177"
        ++ backslash :: B "200" ++ B "a" /\
  encodeBytea 90000 [x00; x5c; x7f; x80; "a"%byte] = hexMarker ++ B "005c7f8061".
Proof. split; vm_compute; reflexivity. Qed.

Example parseBytea_truncated :
  parseBytea (backslash :: B "12")
  = Fault "invalid bytea sequence %v" [AStr (backslash :: B "12")].
Proof. vm_compute. reflexivity. Qed.

Example appendEscapedText_example :
  appendEscapedText (B "x") ("a"%byte :: x09 :: "b"%byte :: backslash :: B "c")
  = B "xa" ++ backslash :: B "tb" ++ [backslash; backslash] ++ B "c".
Proof. vm_compute. reflexivity. Qed.

(** ** The zone offset of a timestamp *)

(** C1. At the input of the claim [parseTs] returns the year 2024, the
    month 3, the day 5, the hour 13, the minute 4, the second 5 and
    123456000 nanoseconds, but an offset of -23400 seconds, not -27000:
    the sign read from the input multiplies the hours only, and the
    minutes are added to the signed hours. *)
Theorem parseTs_zone_sign_on_hours_only :
  exists t,
    parseTs None (B "2024-03-05 13:04:05.123456-07:30") = Ok t /\
    time.Year t = 2024 /\ time.Month t = 3 /\ time.Day t = 5 /\
    time.Hour t = 13 /\ time.Minute t = 4 /\ time.Second t = 5 /\
    time.Nanosecond t = 123456000 /\
    snd (time.Zone t) = -23400 /\
    -23400 = -1 * 7 * (60 * 60) + 30 * 60 /\
    snd (time.Zone t) <> -27000.
Proof.
  eexists. split; [vm_compute; reflexivity|].
  repeat split; try (vm_compute; reflexivity). vm_compute. discriminate.
Qed.

(** West of Greenwich the minutes and the seconds of an offset move the
    zone east; east of Greenwich they add up as the claim says. *)
Example parseTs_zone_examples :
  parseTs_zone (B "-07:30") 0 = Ok (-23400, 6) /\
  parseTs_zone (B "+07:30") 0 = Ok (27000, 6) /\
  parseTs_zone (B "-07:30:15") 0 = Ok (-23385, 9) /\
  parseTs_zone (B "-07") 0 = Ok (-25200, 3).
Proof. repeat split; vm_compute; reflexivity. Qed.

(** ** [NullTime] *)

(** C8. [Scan] returns a nil error for every value.  It stores the value
    and sets [Valid] exactly when the value is a [time.Time]; for every
    other kind it clears [Valid] and returns no error.  [Value] returns the
    nil value when the receiver is not valid and the stored time when it
    is, with a nil error. *)
Theorem NullTime_Scan_Value (nt : NullTime) (v : value) :
  snd (Scan nt v) = None /\
  Valid (fst (Scan nt v))
    = match v with VTime _ => true | _ => false end /\
  match v with
  | VTime t => Time (fst (Scan nt v)) = t
  | _ => Time (fst (Scan nt v)) = time.zero
  end /\
  Value nt = (if Valid nt then VTime (Time nt) else VNil, None).
Proof.
  repeat split.
  - destruct v; reflexivity.
  - destruct v; reflexivity.
  - destruct v; reflexivity.
  - unfold Value. destruct (Valid nt); reflexivity.
Qed.

(** ** Escaping appends *)

Lemma appendEscapedText_char_app (result : bytes) (c : byte) :
  appendEscapedText_char result c = result ++ appendEscapedText_char [] c.
Proof.
  unfold appendEscapedText_char.
  repeat match goal with |- context [if ?b then _ else _] => destruct b end;
    reflexivity.
Qed.

Lemma appendEscapedText_loop_app (text result : bytes) :
  appendEscapedText_loop text result = result ++ appendEscapedText_loop text [].
Proof.
  revert result. induction text as [|c text IH]; intros result; cbn.
  - now rewrite app_nil_r.
  - rewrite IH, (IH (appendEscapedText_char [] c)).
    rewrite appendEscapedText_char_app, <- app_assoc. reflexivity.
Qed.

Lemma appendEscapedText_app (buf text : bytes) :
  appendEscapedText buf text = buf ++ appendEscapedText [] text.
Proof.
  unfold appendEscapedText. destruct (appendEscapedText_scan text 0); [|reflexivity].
  rewrite appendEscapedText_loop_app.
  rewrite (appendEscapedText_loop_app _ ([] ++ _)).
  cbn [app]. now rewrite <- app_assoc.
Qed.

(** ** The dispatch of the encoders and of the decoder *)

Section CodecProperties.

Variable FormatFloat : float64 -> byte -> Z -> Z -> bytes.
Variable float64_of_float32 : float32 -> float64.
Variable ParseFloat : bytes -> Z -> float64 + goError.
Variable time_Format : time.Time -> bytes -> bytes.
Variable time_Parse : bytes -> bytes -> time.Time + goError.

Local Abbreviation encode_ := (encode FormatFloat float64_of_float32 time_Format).
Local Abbreviation decode_ := (decode ParseFloat time_Parse).
Local Abbreviation mustParse_ := (mustParse time_Parse).
Local Abbreviation appendEncodedText_ :=
  (appendEncodedText FormatFloat float64_of_float32 time_Format).

Lemma EncodeToString_length (v : bytes) :
  len (hex.EncodeToString v) = 2 * len v.
Proof.
  induction v as [|b v IH]; [reflexivity|].
  cbn [hex.EncodeToString]. rewrite !len_cons, IH. lia.
Qed.

Lemma hexDigit_lower (b : byte) :
  In (hex.hexDigit (Z.shiftr (byte_val b) 4)) hex.hextable /\
  In (hex.hexDigit (Z.land (byte_val b) 15)) hex.hextable.
Proof. destruct b; split; cbv; tauto. Qed.

Lemma EncodeToString_lower (v : bytes) :
  Forall (fun c => In c hex.hextable) (hex.EncodeToString v).
Proof.
  induction v as [|b v IH]; [constructor|].
  cbn [hex.EncodeToString]. destruct (hexDigit_lower b).
  constructor; [assumption|]. constructor; assumption.
Qed.

(** C7. A string whose target type is the binary blob is encoded as the
    two-character hex marker followed by the hex encoding of its bytes:
    two digits per byte, all of them among [0123456789abcdef], which
    [hex.Decode] reads back.  The result is the same for every
    [parameterStatus], so for every server version.  With any other target
    type the string passes through unchanged. *)
Theorem encode_string (ps : parameterStatus) (v : bytes) (typ : oid.Oid) :
  encode_ ps (VString v) typ
    = Ok (if typ =? oid.T_bytea then hexMarker ++ hex.EncodeToString v else v) /\
  (forall ps', encode_ ps' (VString v) typ = encode_ ps (VString v) typ) /\
  len (hexMarker ++ hex.EncodeToString v) = 2 + 2 * len v /\
  Forall (fun c => In c hex.hextable) (hex.EncodeToString v) /\
  hex.Decode (hex.EncodeToString v) = inl v.
Proof.
  repeat split.
  - unfold encode. now destruct (typ =? oid.T_bytea).
  - rewrite len_app, EncodeToString_length. reflexivity.
  - apply EncodeToString_lower.
  - apply hex_Decode_Encode.
Qed.

(** The legacy escaping of [encodeBytea] differs from that on a server
    before 9.0. *)
Example encode_string_ignores_version :
  encode_ (mkParameterStatus 80000 None) (VString [x00]) oid.T_bytea
    = Ok (hexMarker ++ B "00") /\
  encode_ (mkParameterStatus 80000 None) (VBytes [x00]) oid.T_bytea
    = Ok (backslash :: B "000").
Proof. split; reflexivity. Qed.

(** C4. With the boolean type identifier [decode] returns, for an input
    that is not empty, whether its first byte is the letter t: true for
    that byte, false for any other, without failing.  On the empty input
    the unchecked read of the first byte is out of range: the call aborts
    with a run-time error and returns nothing. *)
Theorem decode_bool (ps : parameterStatus) (s : bytes) :
  decode_ ps s oid.T_bool =
  match s with
  | [] => Panic (IndexOutOfRange 0 0)
  | c :: _ => Ok (VBool (Byte.eqb c "t"))
  end.
Proof.
  unfold decode. cbn [Z.eqb oid.T_bool oid.T_bytea
    oid.T_timestamptz oid.T_timestamp oid.T_date oid.T_time oid.T_timetz
    Pos.eqb orb].
  destruct s as [|c s]; reflexivity.
Qed.

(** The zoned type identifiers, as [mustParse] tests them. *)
Definition zoned (typ : oid.Oid) : bool :=
  (typ =? oid.T_timestamptz) || (typ =? oid.T_timetz).

Definition isPanic {A} (o : outcome A) : Prop := exists e, o = Panic e.

Lemma index_cases (s : bytes) (i : Z) :
  (0 <= i < len s /\ exists c, index s i = Ok c) \/
  (~ 0 <= i < len s /\ index s i = Panic (IndexOutOfRange i (len s))).
Proof.
  unfold index.
  destruct (Z.leb_spec 0 i); [|right; split; [lia|reflexivity]].
  destruct (Z.ltb_spec i (len s)); [|right; split; [lia|reflexivity]].
  left. split; [lia|]. cbn.
  destruct (nth_error s (Z.to_nat i)) eqn:E; [eauto|].
  apply nth_error_None in E. unfold len in *. lia.
Qed.

(** C9. [mustParse] reads the byte at [len - 2] whatever the input, and
    for the zoned types the byte at [len - 3] of the string after a zero
    was appended to a final fraction digit.  The reads are out of range,
    and the call aborts with a run-time error instead of a fault of
    [errorf], exactly for the inputs of fewer than two bytes and, for the
    zoned types, for the inputs of two bytes that do not start with a full
    stop.  So every input of three bytes or more is read in range, and so
    is an input of two bytes for the time without zone. *)
Theorem mustParse_bounds (f : bytes) (typ : oid.Oid) (s : bytes) :
  isPanic (mustParse_ f typ s) <->
  len s < 2 \/
  (len s = 2 /\ zoned typ = true /\ index s 0 <> Ok "."%byte).
Proof.
  unfold isPanic, mustParse. fold (zoned typ).
  destruct (index_cases s (len s - 2)) as [[Hr [c Hc]]|[Hr Hc]]; rewrite Hc;
    cbn [bind].
  2:{ split; [intros _; left; lia | intros _; eauto]. }
  assert (Hnp : forall str, ~ exists e,
             match time_Parse f str with
             | inl t => Ok t
             | inr err => errorf "decode: %s" [AErr err]
             end = Panic e).
  { intros str [e He]. destruct (time_Parse f str); discriminate. }
  assert (Hnp' : forall g str, ~ exists e,
             match time_Parse g str with
             | inl t => Ok t
             | inr err => errorf "decode: %s" [AErr err]
             end = Panic e).
  { intros g str [e He]. destruct (time_Parse g str); discriminate. }
  destruct (zoned typ) eqn:Hz; cbn [bind].
  2:{ split; [intros H; now apply Hnp' in H | intros [H|(_ & H & _)]; [lia|discriminate]]. }
  set (str := if Byte.eqb c "." then s ++ B "0" else s).
  destruct (index_cases str (len str - 3)) as [[Hr' [c' Hc']]|[Hr' Hc']];
    rewrite Hc'; cbn [bind].
  - split; [intros H; now apply Hnp' in H|].
    intros [H|(H2 & _ & H0)]; [lia|exfalso].
    rewrite H2 in Hc. change (2 - 2) with 0 in Hc.
    subst str. destruct (Byte.eqb c ".") eqn:Ec.
    + apply Byte.byte_dec_bl in Ec. congruence.
    + lia.
  - split; [|eauto]. intros _. right.
    subst str. destruct (Byte.eqb c ".") eqn:Ec.
    + rewrite len_app in Hr'. change (len (B "0")) with 1 in Hr'. lia.
    + repeat split; [lia|].
      replace (len s - 2) with 0 in Hc by lia. rewrite Hc. intros [= ->].
      discriminate.
Qed.

(** C10. The encoders for COPY only append.  [appendEscapedText] returns
    the buffer followed by the escaped text.  [appendEncodedText] returns,
    for every value of a supported kind, the buffer followed by bytes that
    do not depend on the buffer; for any other kind it returns nothing and
    aborts through [errorf]. *)
Theorem appendEncodedText_appends (ps : parameterStatus) (buf : bytes) :
  (forall text, appendEscapedText buf text = buf ++ appendEscapedText [] text) /\
  (forall x,
     (exists suffix,
        appendEncodedText_ ps [] x = Ok suffix /\
        appendEncodedText_ ps buf x = Ok (buf ++ suffix) /\
        firstn (List.length buf) (buf ++ suffix) = buf) \/
     (exists t, x = VOther t /\
        appendEncodedText_ ps buf x
          = Fault "encode: unknown type for %T" [ATypeOf t])).
Proof.
  split; [apply appendEscapedText_app|].
  assert (Hpre : forall suffix : bytes, firstn (List.length buf) (buf ++ suffix) = buf).
  { intros suffix. rewrite firstn_app, Nat.sub_diag, firstn_all. cbn.
    apply app_nil_r. }
  intros x. destruct x; try (left; eexists; repeat split; [apply Hpre]);
    try (right; eexists; split; reflexivity).
  left. exists (appendEscapedText [] v). repeat split; [|apply Hpre].
  unfold appendEncodedText.
  now rewrite appendEscapedText_app.
Qed.

End CodecProperties.

(** ** Months and days out of range *)













(** ** Inputs that are too short *)

Lemma parseTs_empty_panics : parseTs None [] = Panic (SliceBounds 0 (-1) 0).
Proof. reflexivity. Qed.

Example parseTs_short_inputs :
  parseTs None (B "2024") = Panic (SliceBounds 0 (-1) 4) /\
  parseTs None (B "2024-03") = Panic (SliceBounds 7 8 7) /\
  parseTs None (B "2024-03-05 13:04") = Panic (SliceBounds 16 17 16) /\
  parseTs None (B "2024-03-05 13:04:05Z") = Panic (SliceBounds 19 22 20) /\
  parseTs None (B "0044-01-01 BC") = Panic (SliceBounds 13 14 13).
Proof. repeat split; vm_compute; reflexivity. Qed.

Lemma decode_bool_empty_is_not_false :
  ~ (forall ParseFloat time_Parse ps,
       decode ParseFloat time_Parse ps [] oid.T_bool = Ok (VBool false)).
Proof.
  intros H.
  specialize (H (fun _ _ => inl 0) (fun _ _ => inl time.zero)
                (mkParameterStatus 0 None)).
  discriminate H.
Qed.

Lemma mustParse_two_bytes_no_panic :
  ~ (forall time_Parse,
       exists e, mustParse time_Parse (B "15:04:05") oid.T_time (B "ab") = Panic e).
Proof.
  intros H. destruct (H (fun _ _ => inl time.zero)) as [e He]. discriminate He.
Qed.

(** ** How the timestamp parser fails *)

(** The faults of [parseTs]: each quotes a piece of the input; the fault
    of [expect] also gives its position. *)
Definition fault_quotes_input (str : bytes) (format : string) (args : list fmtArg)
  : Prop :=
  (exists char pos got,
      format = "expected '%v' at position %v; got '%v'"%string /\
      args = [AStr char; AInt pos; AStr got] /\
      slice str pos (pos + 1) = Ok got /\ got <> char) \/
  (exists lo hi got e,
      format = "expected number; got '%v'"%string /\
      args = [AStr got] /\
      slice str lo hi = Ok got /\ strconv.Atoi got = inr e) \/
  (exists pos rest,
      format = "expected end of input, got %v"%string /\
      args = [AStr rest] /\
      slice_from str pos = Ok rest /\ rest <> []).

(** The run-time errors of [parseTs]: a slice of the input out of range. *)
Definition slice_out_of_range (str : bytes) (e : runtimeError) : Prop :=
  exists lo hi,
    e = SliceBounds lo hi (len str) /\ (lo < 0 \/ hi < lo \/ len str < hi).

Definition fails_well {A} (str : bytes) (o : outcome A) : Prop :=
  match o with
  | Ok _ => True
  | Fault format args => fault_quotes_input str format args
  | Panic e => slice_out_of_range str e
  end.

Lemma bind_Ok_inv {A C} (m : outcome A) (k : A -> outcome C) (c : C) :
  bind m k = Ok c -> exists a, m = Ok a /\ k a = Ok c.
Proof. destruct m; cbn; [eauto | discriminate | discriminate]. Qed.

Lemma fails_well_bind {A C} (str : bytes) (m : outcome A) (k : A -> outcome C) :
  fails_well str m ->
  (forall a, m = Ok a -> fails_well str (k a)) ->
  fails_well str (bind m k).
Proof. destruct m; cbn; auto. Qed.

Lemma fails_well_slice (str : bytes) (lo hi : Z) : fails_well str (slice str lo hi).
Proof.
  unfold slice.
  destruct (Z.leb_spec 0 lo); cbn; [|exists lo, hi; split; [reflexivity|lia]].
  destruct (Z.leb_spec lo hi); cbn; [|exists lo, hi; split; [reflexivity|lia]].
  destruct (Z.leb_spec hi (len str)); cbn; [exact I|].
  exists lo, hi; split; [reflexivity|lia].
Qed.

Lemma fails_well_mustAtoi (str : bytes) (lo hi : Z) (s : bytes) :
  slice str lo hi = Ok s -> fails_well str (mustAtoi s).
Proof.
  intros Hs. unfold mustAtoi. destruct (strconv.Atoi s) as [n|e] eqn:E; cbn; [exact I|].
  right; left. exists lo, hi, s, e. auto.
Qed.

Lemma fails_well_expect (str char : bytes) (pos : Z) :
  fails_well str (expect str char pos).
Proof.
  unfold expect. apply fails_well_bind; [apply fails_well_slice|].
  intros c Hc. destruct (bytes_eqb c char) eqn:E; cbn; [exact I|].
  left. exists char, pos, c. repeat split; [assumption|].
  intros ->. now rewrite bytes_eqb_refl in E.
Qed.

Lemma fails_well_at_is (str : bytes) (pos n : Z) (lit : bytes) :
  fails_well str (at_is str pos n lit).
Proof.
  unfold at_is. destruct (pos <? len str); [|exact I].
  apply fails_well_bind; [apply fails_well_slice|]. intros; exact I.
Qed.

Lemma at_is_true (str : bytes) (pos n : Z) (lit : bytes) :
  at_is str pos n lit = Ok true ->
  pos < len str /\ slice str pos (pos + n) = Ok lit.
Proof.
  unfold at_is. destruct (Z.ltb_spec pos (len str)) as [Hlt|Hge]; [|discriminate].
  destruct (slice str pos (pos + n)) as [c| |]; try discriminate.
  cbn. intros [= E]. apply bytes_eqb_eq in E. now subst.
Qed.

Lemma at_is_false (str : bytes) (pos n : Z) (lit : bytes) :
  at_is str pos n lit = Ok false ->
  len str <= pos \/
  (pos < len str /\ exists c, slice str pos (pos + n) = Ok c /\ c <> lit).
Proof.
  unfold at_is. destruct (Z.ltb_spec pos (len str)) as [Hlt|Hge]; [|intros _; now left].
  destruct (slice str pos (pos + n)) as [c| |]; try discriminate.
  cbn. intros [= E]. right. split; [assumption|]. exists c. split; [reflexivity|].
  intros ->. now rewrite bytes_eqb_refl in E.
Qed.

(** One step through a sequence of calls: the call either fails well or
    returns [x], with the equation [Hx]. *)
Tactic Notation "fw_step" ident(x) ident(Hx) :=
  lazymatch goal with
  | |- fails_well _ (bind (slice _ _ _) _) =>
      apply fails_well_bind; [apply fails_well_slice | intros x Hx]
  | |- fails_well _ (bind (slice_to _ _) _) =>
      apply fails_well_bind; [apply fails_well_slice | unfold slice_to; intros x Hx]
  | |- fails_well _ (bind (slice_from _ _) _) =>
      apply fails_well_bind; [apply fails_well_slice | unfold slice_from; intros x Hx]
  | |- fails_well _ (bind (mustAtoi _) _) =>
      apply fails_well_bind; [eapply fails_well_mustAtoi; eassumption | intros x Hx]
  | |- fails_well _ (bind (expect _ _ _) _) =>
      apply fails_well_bind; [apply fails_well_expect | intros x Hx]
  | |- fails_well _ (bind (at_is _ _ _ _) _) =>
      apply fails_well_bind; [apply fails_well_at_is | intros x Hx]
  end.

Ltac fw_steps :=
  repeat (let x := fresh "x" in let Hx := fresh "Hx" in fw_step x Hx);
  try exact I.

Lemma parseTs_date_fails_well (str : bytes) : fails_well str (parseTs_date str).
Proof. unfold parseTs_date. fw_steps. Qed.

Lemma parseTs_clock_fails_well (str : bytes) (monSep : Z) :
  fails_well str (parseTs_clock str monSep).
Proof.
  unfold parseTs_clock. destruct (_ <? len str); [|exact I]. fw_steps.
Qed.

Lemma IndexAny_range (s chars : bytes) :
  strings.IndexAny s chars = -1 \/ 0 <= strings.IndexAny s chars < len s.
Proof.
  induction s as [|x s IH]; [now left|].
  rewrite len_cons. cbn [strings.IndexAny].
  destruct (strings.inSet chars x); [right; pose proof (len_nonneg s); lia|].
  destruct IH as [->|IH]; [now left|].
  destruct (Z.ltb_spec (strings.IndexAny s chars) 0); lia.
Qed.

(** The length of the fraction, as [parseTs] computes it, is never
    negative and never goes past the end of the input. *)
Lemma fracOff_range (str tail : bytes) (fracStart : Z) :
  slice str fracStart (len str) = Ok tail ->
  let fracOff := strings.IndexAny tail (B "-+ ") in
  let fracOff := if fracOff <? 0 then len str - fracStart else fracOff in
  0 <= fracOff /\ fracStart + fracOff <= len str.
Proof.
  intros Hs. apply slice_inv in Hs as (H0 & H1 & _ & Hl & _). cbv zeta.
  destruct (IndexAny_range tail (B "-+ ")) as [->|Hr].
  - cbn. lia.
  - destruct (Z.ltb_spec (strings.IndexAny tail (B "-+ ")) 0); lia.
Qed.

Lemma Pow10_int_nonzero (n : Z) : 0 <= n -> math.Pow10_int n <> 0.
Proof.
  intros Hn. unfold math.Pow10_int.
  destruct (Z.ltb_spec n 0); [lia|].
  destruct (n <=? 18); [|discriminate].
  apply Z.pow_nonzero; lia.
Qed.

Lemma parseTs_frac_fails_well (str : bytes) (remainderIdx : Z) :
  fails_well str (parseTs_frac str remainderIdx).
Proof.
  unfold parseTs_frac. fw_step isFrac HisFrac. destruct isFrac; [|exact I].
  fw_step tail Htail.
  pose proof (fracOff_range str tail (remainderIdx + 1) Htail) as [Hf _].
  cbv zeta in Hf. fw_step s Hs. fw_step fracSec HfracSec.
  unfold int_quo.
  destruct (Z.eqb_spec (math.Pow10_int
    (if strings.IndexAny tail (B "-+ ") <? 0 then len str - (remainderIdx + 1)
     else strings.IndexAny tail (B "-+ "))) 0) as [E|E].
  - now apply Pow10_int_nonzero in E.
  - exact I.
Qed.

Lemma parseTs_zone_fails_well (str : bytes) (remainderIdx : Z) :
  fails_well str (parseTs_zone str remainderIdx).
Proof.
  unfold parseTs_zone. fw_step isMinus HisMinus.
  apply fails_well_bind.
  { destruct isMinus; [exact I|apply fails_well_at_is]. }
  intros isPlus HisPlus.
  destruct (isMinus || isPlus) eqn:Hsign; [|exact I].
  fw_step c Hc. apply fails_well_bind.
  { (* the sign is where the test saw it *)
    destruct isMinus.
    - apply at_is_true in HisMinus as [_ HisMinus].
      rewrite HisMinus in Hc. injection Hc as <-. exact I.
    - cbn in Hsign. subst isPlus. apply at_is_true in HisPlus as [_ HisPlus].
      rewrite HisPlus in Hc. injection Hc as <-. exact I. }
  intros tzSign _. fw_step s Hs. fw_step tzHours HtzHours.
  fw_step hasMin HhasMin.
  apply fails_well_bind.
  { destruct hasMin; [fw_steps|exact I]. }
  intros [tzMin r1] _. fw_step hasSec HhasSec.
  apply fails_well_bind.
  { destruct hasSec; [fw_steps|exact I]. }
  intros [tzSec r2] _. exact I.
Qed.

Lemma parseTs_era_fails_well (str : bytes) (remainderIdx : Z) :
  fails_well str (parseTs_era str remainderIdx).
Proof. unfold parseTs_era. fw_step isBC HisBC. destruct isBC; exact I. Qed.

Lemma parseTs_sections_fails_well (str : bytes) :
  fails_well str (parseTs_sections str).
Proof.
  unfold parseTs_sections.
  apply fails_well_bind; [apply parseTs_date_fails_well|].
  intros [[[monSep year] month] day] _.
  apply fails_well_bind; [apply parseTs_clock_fails_well|].
  intros [[hour minute] second] _.
  apply fails_well_bind; [apply parseTs_frac_fails_well|].
  intros [nanoSec r1] _.
  apply fails_well_bind; [apply parseTs_zone_fails_well|].
  intros [tzOff r2] _.
  apply fails_well_bind; [apply parseTs_era_fails_well|].
  intros [bcSign r3] _. exact I.
Qed.

(** C3. For every input [parseTs] returns an instant, or aborts through
    [errorf] with a message that quotes the offending piece of the input
    (with its position when a separator is missing, without it when a
    number or the end of the input was expected), or, when a slice it takes
    at a fixed distance is out of the range of the string, aborts with a
    run-time error.  Nothing else happens: no division by zero, and the
    fault for a missing sign is never raised. *)
Theorem parseTs_failure_modes (currentLocation : option time.Location) (str : bytes) :
  match parseTs currentLocation str with
  | Ok _ => True
  | Fault format args => fault_quotes_input str format args
  | Panic e => slice_out_of_range str e
  end.
Proof.
  change (fails_well str (parseTs currentLocation str)). unfold parseTs.
  apply fails_well_bind; [apply parseTs_sections_fails_well|].
  intros [f r] _. apply fails_well_bind; [|intros; exact I].
  destruct (Z.ltb_spec r (len str)); [|exact I].
  apply fails_well_bind; [apply fails_well_slice|].
  intros rest Hrest. cbn. right; right. exists r, rest.
  repeat split; [assumption|].
  apply slice_inv in Hrest as (_ & _ & _ & Hl & _).
  intros ->. rewrite len_nil in Hl. lia.
Qed.

(** ** The position reached by the sections *)

Tactic Notation "bind_inv" hyp(H) ident(x) ident(Hx) :=
  apply bind_Ok_inv in H as (x & Hx & H).

Lemma mustAtoi_Ok (s : bytes) (n : Z) : mustAtoi s = Ok n -> strconv.Atoi s = inl n.
Proof. unfold mustAtoi. destruct (strconv.Atoi s); [now intros [= ->]|discriminate]. Qed.

Lemma expect_Ok (str char : bytes) (pos : Z) (u : unit) :
  expect str char pos = Ok u -> slice str pos (pos + 1) = Ok char.
Proof.
  unfold expect. intros H. bind_inv H c Hc.
  destruct (bytes_eqb c char) eqn:E; [|discriminate].
  apply bytes_eqb_eq in E. now subst.
Qed.

(** The date is read up to six bytes past the first separator. *)
Lemma parseTs_date_Ok (str : bytes) (monSep year month day : Z) :
  parseTs_date str = Ok (monSep, year, month, day) ->
  monSep = strings.IndexByte str "-" /\ 0 <= monSep /\ monSep + 6 <= len str.
Proof.
  unfold parseTs_date, slice_to, strings.IndexRune. intros H.
  bind_inv H s0 Hs0. bind_inv H y Hy. bind_inv H s1 Hs1. bind_inv H m Hm.
  bind_inv H u Hu. bind_inv H s2 Hs2. bind_inv H d Hd.
  injection H as <- _ _ _.
  apply slice_inv in Hs0, Hs2. lia.
Qed.





(** ** The shape of the accepted timestamps *)

(** The bytes of [s] from [a] up to [b]. *)
Definition sub (s : bytes) (a b : Z) : bytes :=
  firstn (Z.to_nat (b - a)) (skipn (Z.to_nat a) s).

Lemma slice_sub (s : bytes) (a b : Z) (x : bytes) :
  slice s a b = Ok x -> x = sub s a b /\ 0 <= a /\ a <= b /\ b <= len s.
Proof. intros H. apply slice_inv in H. unfold sub. tauto. Qed.







(** A piece of text that [strconv.Atoi] reads as a number. *)
Definition numeric (s : bytes) : Prop := exists n, strconv.Atoi s = inl n.

Lemma Atoi_nil : strconv.Atoi [] = inr (NumError "Atoi" [] ErrSyntax).
Proof. reflexivity. Qed.

Lemma numeric_nonempty (s : bytes) : numeric s -> 1 <= len s.
Proof.
  intros [n Hn]. destruct s; [discriminate|]. rewrite len_cons.
  pose proof (len_nonneg s). lia.
Qed.






Ltac norm_pos H :=
  repeat match type of H with
         | context [?a + 3 + 1] => replace (a + 3 + 1) with (a + 4) in H by lia
         | context [?a + 3 + 3] => replace (a + 3 + 3) with (a + 6) in H by lia
         | context [?a + 6 + 1] => replace (a + 6 + 1) with (a + 7) in H by lia
         | context [?a + 6 + 3] => replace (a + 6 + 3) with (a + 9) in H by lia
         | context [?a + 9 + 1] => replace (a + 9 + 1) with (a + 10) in H by lia
         | context [?a + 9 + 3] => replace (a + 9 + 3) with (a + 12) in H by lia
         | context [?a + 12 + 1] => replace (a + 12 + 1) with (a + 13) in H by lia
         | context [?a + 12 + 3] => replace (a + 12 + 3) with (a + 15) in H by lia
         | context [?a + 4 + 1] => replace (a + 4 + 1) with (a + 5) in H by lia
         end.

(** A number read off a slice. *)
Lemma slice_mustAtoi (str : bytes) (a b : Z) (s : bytes) (n : Z) :
  slice str a b = Ok s -> mustAtoi s = Ok n ->
  strconv.Atoi (sub str a b) = inl n /\ 0 <= a /\ a <= b /\ b <= len str.
Proof.
  intros Hs Hn. apply slice_sub in Hs as (-> & H). apply mustAtoi_Ok in Hn. tauto.
Qed.

Lemma expect_sub (str char : bytes) (pos : Z) (u : unit) :
  expect str char pos = Ok u ->
  sub str pos (pos + 1) = char /\ 0 <= pos /\ pos + 1 <= len str.
Proof.
  intros H. apply expect_Ok in H. apply slice_sub in H as (-> & H).
  split; [reflexivity|lia].
Qed.



Lemma parseTs_clock_shape (str : bytes) (monSep hour minute second : Z) :
  parseTs_clock str monSep = Ok (hour, minute, second) ->
  len str <= monSep + 6 \/
  (monSep + 15 <= len str /\
   sub str (monSep + 6) (monSep + 7) = B " " /\
   sub str (monSep + 9) (monSep + 10) = B ":" /\
   sub str (monSep + 12) (monSep + 13) = B ":" /\
   strconv.Atoi (sub str (monSep + 7) (monSep + 9)) = inl hour /\
   strconv.Atoi (sub str (monSep + 10) (monSep + 12)) = inl minute /\
   strconv.Atoi (sub str (monSep + 13) (monSep + 15)) = inl second).
Proof.
  unfold parseTs_clock. change (len (B "01-01")) with 5.
  destruct (Z.ltb_spec (monSep + 5 + 1) (len str)) as [Hlt|Hge]; [|intros _; left; lia].
  intros H. right.
  bind_inv H u0 Hu0. bind_inv H u1 Hu1. bind_inv H s0 Hs0. bind_inv H h Hh.
  bind_inv H u2 Hu2. bind_inv H s1 Hs1. bind_inv H mi Hmi.
  bind_inv H s2 Hs2. bind_inv H sec Hsec. injection H as <- <- <-.
  pose proof (slice_mustAtoi _ _ _ _ _ Hs0 Hh) as [Ah _].
  pose proof (slice_mustAtoi _ _ _ _ _ Hs1 Hmi) as [Ami _].
  pose proof (slice_mustAtoi _ _ _ _ _ Hs2 Hsec) as (Asec & _ & _ & Hend).
  apply expect_sub in Hu0 as [Hu0 _]. apply expect_sub in Hu1 as [Hu1 _].
  apply expect_sub in Hu2 as [Hu2 _].
  repeat match goal with
         | H : context [monSep + 3 + 3 + 3 + 3 + 3] |- _ =>
             replace (monSep + 3 + 3 + 3 + 3 + 3) with (monSep + 15) in H by lia
         | H : context [monSep + 3 + 3 + 3 + 3] |- _ =>
             replace (monSep + 3 + 3 + 3 + 3) with (monSep + 12) in H by lia
         | H : context [monSep + 3 + 3 + 3] |- _ =>
             replace (monSep + 3 + 3 + 3) with (monSep + 9) in H by lia
         | H : context [monSep + 3 + 3] |- _ =>
             replace (monSep + 3 + 3) with (monSep + 6) in H by lia
         end.
  norm_pos Hu0. norm_pos Hu1. norm_pos Hu2. norm_pos Ah. norm_pos Ami. norm_pos Asec.
  repeat split; auto.
Qed.









(** The accepted timestamps of the specification's grammar, one for each
    optional section. *)
Example parseTs_accepts :
  (exists t, parseTs None (B "2024-03-05") = Ok t) /\
  (exists t, parseTs None (B "2024-03-05 13:04:05") = Ok t) /\
  (exists t, parseTs None (B "2024-03-05 13:04:05.5") = Ok t) /\
  (exists t, parseTs None (B "2024-03-05 13:04:05+01") = Ok t) /\
  (exists t, parseTs None (B "2024-03-05 13:04:05.25+05:30 BC") = Ok t) /\
  (exists t, parseTs None (B "0044-01-01 00:00:00 BC") = Ok t /\ time.Year t = -44).
Proof.
  split; [|split; [|split; [|split; [|split]]]].
  1-5: eexists; vm_compute; reflexivity.
  eexists. split; [vm_compute; reflexivity|]. vm_compute. reflexivity.
Qed.

(** * Further properties of the codec *)

(** ** The text format of COPY *)

(** What the second loop of [appendEscapedText] appends for one
    character. *)
Definition escapeChar (c : byte) : bytes := appendEscapedText_char [] c.

Lemma escapeChar_plain (c : byte) : needsEscape c = false -> escapeChar c = [c].
Proof.
  unfold needsEscape, escapeChar, appendEscapedText_char. intros H.
  apply orb_false_iff in H as [H H3]. apply orb_false_iff in H as [H H2].
  apply orb_false_iff in H as [H0 H1]. now rewrite H0, H1, H2, H3.
Qed.

(** An escaped character is a backslash and one of four letters. *)
Lemma escapeChar_special (c : byte) :
  needsEscape c = true ->
  exists x, escapeChar c = [backslash; x] /\
            (x = backslash \/ x = "n"%byte \/ x = "r"%byte \/ x = "t"%byte).
Proof.
  unfold needsEscape, escapeChar, appendEscapedText_char. intros H.
  destruct (Byte.eqb c backslash); [eexists; split; [reflexivity|tauto]|].
  destruct (Byte.eqb c x0a); [eexists; split; [reflexivity|tauto]|].
  destruct (Byte.eqb c x0d); [eexists; split; [reflexivity|tauto]|].
  destruct (Byte.eqb c x09); [eexists; split; [reflexivity|tauto]|].
  discriminate.
Qed.

Lemma appendEscapedText_loop_flat (text result : bytes) :
  appendEscapedText_loop text result = result ++ flat_map escapeChar text.
Proof.
  revert result. induction text as [|c text IH]; intros result; cbn.
  - now rewrite app_nil_r.
  - rewrite IH, appendEscapedText_char_app, <- app_assoc. reflexivity.
Qed.

Lemma flat_map_escapeChar_plain (text : bytes) :
  Forall (fun c => needsEscape c = false) text -> flat_map escapeChar text = text.
Proof.
  induction 1 as [|c text Hc _ IH]; [reflexivity|].
  cbn. now rewrite escapeChar_plain, IH.
Qed.

Lemma appendEscapedText_scan_None (text : bytes) (i : Z) :
  appendEscapedText_scan text i = None ->
  Forall (fun c => needsEscape c = false) text.
Proof.
  revert i. induction text as [|c text IH]; intros i; cbn; [constructor|].
  destruct (needsEscape c) eqn:E; [discriminate|].
  intros H. constructor; [assumption|]. now apply IH in H.
Qed.

Lemma appendEscapedText_scan_Some (text : bytes) (i startPos : Z) :
  appendEscapedText_scan text i = Some startPos ->
  i <= startPos /\
  Forall (fun c => needsEscape c = false) (firstn (Z.to_nat (startPos - i)) text).
Proof.
  revert i. induction text as [|c text IH]; intros i; cbn; [discriminate|].
  destruct (needsEscape c) eqn:E.
  - intros [= <-]. rewrite Z.sub_diag. split; [lia|constructor].
  - intros H. apply IH in H as [Hle Hall]. split; [lia|].
    replace (Z.to_nat (startPos - i)) with (S (Z.to_nat (startPos - (i + 1)))) by lia.
    cbn. now constructor.
Qed.

(** Where the scan stops, the text before is copied as it is. *)
Lemma appendEscapedText_scan_split (text : bytes) :
  match appendEscapedText_scan text 0 with
  | None => flat_map escapeChar text = text
  | Some startPos =>
      firstn (Z.to_nat startPos) text
        ++ flat_map escapeChar (skipn (Z.to_nat startPos) text)
      = flat_map escapeChar text
  end.
Proof.
  destruct (appendEscapedText_scan text 0) as [startPos|] eqn:E.
  - apply appendEscapedText_scan_Some in E as [H0 Hpre].
    rewrite Z.sub_0_r in Hpre.
    rewrite <- (firstn_skipn (Z.to_nat startPos) text) at 3.
    rewrite flat_map_app, (flat_map_escapeChar_plain _ Hpre). reflexivity.
  - apply appendEscapedText_scan_None in E. now apply flat_map_escapeChar_plain.
Qed.

(** The escaped text, appended to the empty buffer. *)
Lemma appendEscapedText_nil (text : bytes) :
  appendEscapedText [] text = flat_map escapeChar text.
Proof.
  pose proof (appendEscapedText_scan_split text) as H. unfold appendEscapedText.
  destruct (appendEscapedText_scan text 0); [|now rewrite H].
  rewrite appendEscapedText_loop_flat. exact H.
Qed.

(** X1. The scan for the first character to escape, the copy of the text
    before it and the loop over the rest together escape the text
    character by character: each backslash, newline, carriage return and
    tab becomes its two-character escape, every other byte is copied. *)
Theorem appendEscapedText_bytewise (buf text : bytes) :
  appendEscapedText buf text = buf ++ flat_map escapeChar text.
Proof.
  pose proof (appendEscapedText_scan_split text) as H. unfold appendEscapedText.
  destruct (appendEscapedText_scan text 0) as [startPos|].
  - rewrite appendEscapedText_loop_flat, <- app_assoc. now rewrite H.
  - now rewrite H.
Qed.

(** ** What the escaped text never holds *)

Definition isSeparator (c : byte) : bool :=
  Byte.eqb c x09 || Byte.eqb c x0a || Byte.eqb c x0d.

Lemma escapeChar_no_separator (c : byte) :
  Forall (fun x => isSeparator x = false) (escapeChar c).
Proof.
  destruct (needsEscape c) eqn:E.
  - apply escapeChar_special in E as (x & -> & Hx).
    repeat constructor. destruct Hx as [->|[->|[->| ->]]]; reflexivity.
  - rewrite (escapeChar_plain _ E). repeat constructor.
    unfold needsEscape in E. unfold isSeparator.
    apply orb_false_iff in E as [E H3]. apply orb_false_iff in E as [E H2].
    apply orb_false_iff in E as [_ H1]. now rewrite H1, H2, H3.
Qed.

(** X2. The escaped text holds no tab, no newline and no carriage return:
    a text value cannot end a field or a row of COPY. *)
Theorem appendEscapedText_no_separator (text : bytes) :
  Forall (fun x => isSeparator x = false) (appendEscapedText [] text).
Proof.
  rewrite appendEscapedText_nil.
  induction text as [|c text IH]; [constructor|].
  cbn [flat_map]. apply Forall_app. split; [apply escapeChar_no_separator|exact IH].
Qed.

(** The reading of an escaped text, the inverse of [escapeChar]. *)
Definition unescapeLetter (x : byte) : byte :=
  if Byte.eqb x "n" then x0a
  else if Byte.eqb x "r" then x0d
  else if Byte.eqb x "t" then x09
  else x.

Fixpoint unescape (s : bytes) : bytes :=
  match s with
  | [] => []
  | c :: s' =>
      if Byte.eqb c backslash then
        match s' with
        | [] => []
        | x :: s'' => unescapeLetter x :: unescape s''
        end
      else c :: unescape s'
  end.

Lemma unescape_escapeChar (c : byte) (rest : bytes) :
  unescape (escapeChar c ++ rest) = c :: unescape rest.
Proof.
  unfold escapeChar, appendEscapedText_char.
  destruct (Byte.eqb c backslash) eqn:E0.
  { apply Byte.byte_dec_bl in E0. subst c. reflexivity. }
  destruct (Byte.eqb c x0a) eqn:E1.
  { apply Byte.byte_dec_bl in E1. subst c. reflexivity. }
  destruct (Byte.eqb c x0d) eqn:E2.
  { apply Byte.byte_dec_bl in E2. subst c. reflexivity. }
  destruct (Byte.eqb c x09) eqn:E3.
  { apply Byte.byte_dec_bl in E3. subst c. reflexivity. }
  cbn. now rewrite E0.
Qed.

Lemma unescape_flat_map (text : bytes) :
  unescape (flat_map escapeChar text) = text.
Proof.
  induction text as [|c text IH]; [reflexivity|].
  cbn [flat_map]. now rewrite unescape_escapeChar, IH.
Qed.

(** X3. Escaping loses nothing: two texts with the same escaped form are
    the same text. *)
Theorem appendEscapedText_injective (buf a b : bytes) :
  appendEscapedText buf a = appendEscapedText buf b -> a = b.
Proof.
  rewrite (appendEscapedText_app buf a), (appendEscapedText_app buf b).
  intros H. apply app_inv_head in H. rewrite !appendEscapedText_nil in H.
  apply (f_equal unescape) in H. now rewrite !unescape_flat_map in H.
Qed.

Lemma appendEscapedText_injective_witness :
  appendEscapedText (B "id=") (x09 :: B "a") = appendEscapedText (B "id=") (x09 :: B "a") /\
  x09 :: B "a" = x09 :: B "a".
Proof.
  split; [reflexivity|].
  apply (appendEscapedText_injective (B "id=") (x09 :: B "a") (x09 :: B "a")).
  reflexivity.
Defined.

(** The number of characters of a text that are escaped. *)
Definition escapes (text : bytes) : Z := len (filter needsEscape text).

Lemma escapes_nonneg (text : bytes) : 0 <= escapes text.
Proof. apply len_nonneg. Qed.

Lemma flat_map_escapeChar_length (text : bytes) :
  len (flat_map escapeChar text) = len text + escapes text.
Proof.
  unfold escapes. induction text as [|c text IH]; [reflexivity|].
  cbn [flat_map filter]. rewrite len_app, len_cons, IH.
  destruct (needsEscape c) eqn:E.
  - apply escapeChar_special in E as (x & -> & _). rewrite !len_cons, len_nil. lia.
  - rewrite (escapeChar_plain _ E). rewrite !len_cons, len_nil. lia.
Qed.

Lemma escapes_zero (text : bytes) :
  escapes text = 0 -> Forall (fun c => needsEscape c = false) text.
Proof.
  unfold escapes. induction text as [|c text IH]; [constructor|].
  cbn [filter]. destruct (needsEscape c) eqn:E.
  - rewrite len_cons. pose proof (len_nonneg (filter needsEscape text)). lia.
  - intros H. constructor; auto.
Qed.

(** X4. Every escaped character costs one more byte, and the text is
    appended unchanged exactly when none of its characters is a
    backslash, a newline, a carriage return or a tab. *)
Theorem appendEscapedText_length (buf text : bytes) :
  len (appendEscapedText buf text) = len buf + len text + escapes text /\
  (appendEscapedText buf text = buf ++ text <->
   Forall (fun c => needsEscape c = false) text).
Proof.
  rewrite (appendEscapedText_app buf text), appendEscapedText_nil.
  pose proof (flat_map_escapeChar_length text) as Hl. split.
  - rewrite len_app. lia.
  - split.
    + intros H. apply app_inv_head in H. rewrite H in Hl.
      apply escapes_zero. lia.
    + intros H. now rewrite flat_map_escapeChar_plain.
Qed.

(** ** The null marker *)

Definition nullMarker : bytes := [backslash; "N"%byte].

Lemma escaped_not_null (text : bytes) : flat_map escapeChar text <> nullMarker.
Proof.
  destruct text as [|c text]; [discriminate|]. cbn [flat_map].
  destruct (needsEscape c) eqn:E.
  - apply escapeChar_special in E as (x & -> & Hx). cbn. intros [= -> _].
    destruct Hx as [H|[H|[H|H]]]; discriminate H.
  - rewrite (escapeChar_plain _ E). cbn. intros [= -> _]. discriminate E.
Qed.

Lemma encodeBytea_not_null (serverVersion : Z) (v : bytes) :
  encodeBytea serverVersion v <> nullMarker.
Proof.
  unfold encodeBytea. destruct (90000 <=? serverVersion).
  - cbn. discriminate.
  - rewrite encodeBytea_escape_flat. cbn [app].
    destruct v as [|b v]; [discriminate|]. cbn [flat_map].
    unfold encodeBytea_byte at 1.
    destruct (Byte.eqb b backslash) eqn:Eb; [cbn; discriminate|].
    destruct ((byte_val b <? 32) || (126 <? byte_val b)).
    + unfold fmt.Sprintf_03o. cbn. discriminate.
    + cbn. intros [= -> _]. discriminate Eb.
Qed.

Section BulkProperties.

Variable FormatFloat : float64 -> byte -> Z -> Z -> bytes.
Variable float64_of_float32 : float32 -> float64.
Variable time_Format : time.Time -> bytes -> bytes.

Local Abbreviation appendEncodedText_ :=
  (appendEncodedText FormatFloat float64_of_float32 time_Format).

(** X5. The nil value is appended as the two bytes of the null marker, a
    backslash and the letter N, and no text and no byte sequence is ever
    appended as these two bytes: a value cannot be taken for a null. *)
Theorem appendEncodedText_null_unambiguous
    (ps : parameterStatus) (buf v : bytes) :
  appendEncodedText_ ps buf VNil = Ok (buf ++ nullMarker) /\
  appendEncodedText_ ps buf (VString v) <> appendEncodedText_ ps buf VNil /\
  appendEncodedText_ ps buf (VBytes v) <> appendEncodedText_ ps buf VNil.
Proof.
  split; [reflexivity|]. unfold appendEncodedText. split.
  - rewrite appendEscapedText_app, appendEscapedText_nil. intros [= H].
    apply app_inv_head in H. now apply escaped_not_null in H.
  - intros [= H]. apply app_inv_head in H. now apply encodeBytea_not_null in H.
Qed.

End BulkProperties.

(** ** The bytes [encodeBytea] emits *)

Definition printable (c : byte) : bool :=
  (32 <=? byte_val c) && (byte_val c <=? 126).

Lemma encodeBytea_byte_printable (b : byte) :
  forallb printable (encodeBytea_byte b) = true.
Proof. destruct b; reflexivity. Qed.

Lemma hex_byte_printable (b : byte) :
  printable (hex.hexDigit (Z.shiftr (byte_val b) 4)) = true /\
  printable (hex.hexDigit (Z.land (byte_val b) 15)) = true.
Proof. destruct b; split; reflexivity. Qed.

Lemma EncodeToString_printable (v : bytes) :
  forallb printable (hex.EncodeToString v) = true.
Proof.
  induction v as [|b v IH]; [reflexivity|].
  cbn [hex.EncodeToString forallb]. destruct (hex_byte_printable b) as [-> ->].
  exact IH.
Qed.

(** X6. In both formats the encoding of a byte sequence is printable
    ASCII: every byte of it lies between the space and the tilde. *)
Theorem encodeBytea_printable (serverVersion : Z) (v : bytes) :
  forallb printable (encodeBytea serverVersion v) = true.
Proof.
  unfold encodeBytea. destruct (90000 <=? serverVersion).
  - cbn [hexMarker app forallb]. unfold fmt.Sprintf_x.
    rewrite EncodeToString_printable. reflexivity.
  - rewrite encodeBytea_escape_flat. cbn [app].
    induction v as [|b v IH]; [reflexivity|].
    cbn [flat_map]. rewrite forallb_app, encodeBytea_byte_printable. exact IH.
Qed.

(** ** [parseBytea] on input of any shape *)

Lemma index_ok (s : bytes) (i : Z) :
  0 <= i < len s -> exists c, index s i = Ok c.
Proof.
  intros H. destruct (index_cases s i) as [[_ Hc]|[Hn _]]; [exact Hc|lia].
Qed.

(** The body of the loop reads within the input. *)
Lemma parseBytea_iter_no_panic (c : byte) (tl result : bytes) (e : runtimeError) :
  parseBytea_iter (c :: tl) result <> Panic e.
Proof.
  unfold parseBytea_iter, errorf, slice_to, slice_from.
  rewrite index_cons_0. cbn [bind]. set (s := c :: tl).
  assert (Hs : 1 <= len s) by (subst s; rewrite len_cons; pose proof (len_nonneg tl); lia).
  destruct (Byte.eqb c backslash).
  - destruct (Z.leb_spec 2 (len s)) as [H2|H2]; cbn [bind].
    + destruct (index_ok s 1 ltac:(lia)) as [c1 ->]. cbn [bind].
      destruct (Byte.eqb c1 backslash).
      * rewrite slice_ok by lia. discriminate.
      * destruct (Z.ltb_spec (len s) 4) as [H4|H4]; [discriminate|]. cbn [bind].
        rewrite slice_ok by lia. cbn [bind].
        destruct (strconv.ParseInt _ 8 9); [|discriminate].
        rewrite slice_ok by lia. discriminate.
    + destruct (Z.ltb_spec (len s) 4) as [H4|H4]; [discriminate|lia].
  - destruct (IndexByte_range s backslash) as [->|Hi]; [discriminate|].
    destruct (Z.eqb_spec (strings.IndexByte s backslash) (-1)); [discriminate|].
    rewrite !slice_ok by lia. discriminate.
Qed.

Lemma parseBytea_escape_no_panic (s result : bytes) (e : runtimeError) :
  parseBytea_escape s result <> Panic e.
Proof.
  funelim (parseBytea_escape s result).
  - discriminate.
  - eauto.
  - discriminate.
  - discriminate.
  - exfalso. match goal with
             | H : parseBytea_iter _ _ = Panic _ |- _ =>
                 exact (parseBytea_iter_no_panic _ _ _ _ H)
             end.
Qed.

(** X7. Whatever bytes the server sends, [parseBytea] returns the decoded
    bytes or aborts through [errorf]: every index and every slice it takes
    is within the input, so it raises no run-time error. *)
Theorem parseBytea_no_panic (s : bytes) :
  (exists result, parseBytea s = Ok result) \/
  (exists format args, parseBytea s = Fault format args).
Proof.
  unfold parseBytea, slice_to, slice_from, errorf.
  destruct (Z.leb_spec 2 (len s)) as [H2|H2].
  - rewrite slice_ok by lia. cbn [bind].
    destruct (bytes_eqb _ hexMarker).
    + rewrite slice_ok by lia. cbn [bind].
      destruct (hex.Decode _); [left|right]; eauto.
    + destruct (parseBytea_escape s []) as [r|f a|e] eqn:E; eauto.
      now apply parseBytea_escape_no_panic in E.
  - cbn [bind]. destruct (parseBytea_escape s []) as [r|f a|e] eqn:E; eauto.
    now apply parseBytea_escape_no_panic in E.
Qed.

(** A text that does not start with a backslash is not in the hex
    format. *)
Lemma not_hex_prefixed (c : byte) (tl : bytes) :
  (Byte.eqb c backslash = false \/
   match tl with x :: _ => Byte.eqb x "x" = false | [] => True end) ->
  (if 2 <=? len (c :: tl)
   then prefix <- slice_to (c :: tl) 2;; Ok (bytes_eqb prefix hexMarker)
   else Ok false) = Ok false.
Proof.
  intros H. destruct tl as [|x tl]; [reflexivity|].
  rewrite slice_to_2. cbn [bind bytes_eqb hexMarker].
  change "\"%byte with backslash.
  destruct (2 <=? _); [|reflexivity].
  destruct H as [->| ->]; [reflexivity|]. now rewrite andb_false_r.
Qed.

(** X8. A value without a backslash is in neither format's escapes and
    is returned as it is. *)
Theorem parseBytea_raw (s : bytes) :
  strings.IndexByte s backslash = -1 -> parseBytea s = Ok s.
Proof.
  intros H. destruct s as [|c tl]; [reflexivity|].
  assert (Hc : Byte.eqb c backslash = false).
  { cbn [strings.IndexByte] in H. destruct (Byte.eqb c backslash); [discriminate|reflexivity]. }
  unfold parseBytea. rewrite not_hex_prefixed by now left. cbn [bind].
  rewrite parseBytea_escape_step. unfold parseBytea_iter.
  rewrite index_cons_0. cbn [bind]. rewrite Hc, H. reflexivity.
Qed.

Lemma parseBytea_raw_witness :
  strings.IndexByte (B "plain text") backslash = -1 /\
  parseBytea (B "plain text") = Ok (B "plain text").
Proof.
  split; [reflexivity|]. apply (parseBytea_raw (B "plain text")). reflexivity.
Defined.

Definition startsWith (c : byte) (s : bytes) : bool :=
  match s with
  | x :: _ => Byte.eqb x c
  | [] => false
  end.

Lemma IndexByte_app_found (p : bytes) (c : byte) (rest : bytes) :
  strings.IndexByte p c = -1 -> strings.IndexByte (p ++ c :: rest) c = len p.
Proof.
  induction p as [|x p IH]; cbn [strings.IndexByte app].
  - intros _. now rewrite byte_eqb_refl.
  - destruct (Byte.eqb x c); [discriminate|].
    destruct (Z.ltb_spec (strings.IndexByte p c) 0) as [Hlt|Hge].
    + intros _. destruct (IndexByte_range p c) as [E|E]; [|lia].
      rewrite (IH E), len_cons. pose proof (len_nonneg p).
      destruct (Z.ltb_spec (len p) 0); lia.
    + intros E. lia.
Qed.

(** The loop copies the bytes before the first backslash and goes on from
    the backslash. *)
Lemma parseBytea_escape_run (p rest acc : bytes) :
  strings.IndexByte p backslash = -1 ->
  parseBytea_escape (p ++ backslash :: rest) acc
  = parseBytea_escape (backslash :: rest) (acc ++ p).
Proof.
  intros Hp. destruct p as [|c p]; [now rewrite app_nil_r|].
  assert (Hc : Byte.eqb c backslash = false).
  { cbn [strings.IndexByte] in Hp. destruct (Byte.eqb c backslash); [discriminate|reflexivity]. }
  rewrite parseBytea_escape_step. cbn [app]. unfold parseBytea_iter.
  rewrite index_cons_0. cbn [bind]. rewrite Hc.
  change (c :: p ++ backslash :: rest) with ((c :: p) ++ backslash :: rest).
  rewrite (IndexByte_app_found _ _ _ Hp).
  pose proof (len_nonneg p). rewrite len_cons.
  destruct (Z.eqb_spec (1 + len p) (-1)); [lia|].
  rewrite <- (len_cons c p). rewrite slice_to_app, slice_from_app. reflexivity.
Qed.

(** X9. A backslash that is followed neither by a second backslash nor by
    three more bytes is a fault that quotes the backslash and what is left
    after it, wherever in the value it stands. *)
Theorem parseBytea_truncated_escape (p rest : bytes) :
  strings.IndexByte p backslash = -1 ->
  len rest < 3 ->
  startsWith backslash rest = false ->
  (p = [] -> startsWith "x" rest = false) ->
  parseBytea (p ++ backslash :: rest)
  = Fault "invalid bytea sequence %v" [AStr (backslash :: rest)].
Proof.
  intros Hp Hlen Hbs Hx. unfold parseBytea.
  assert (Hhex : (if 2 <=? len (p ++ backslash :: rest)
                  then prefix <- slice_to (p ++ backslash :: rest) 2;;
                       Ok (bytes_eqb prefix hexMarker)
                  else Ok false) = Ok false).
  { destruct p as [|c p]; cbn [app]; apply not_hex_prefixed.
    - right. specialize (Hx eq_refl). destruct rest; [exact I|exact Hx].
    - left. cbn [strings.IndexByte] in Hp.
      destruct (Byte.eqb c backslash); [discriminate|reflexivity]. }
  rewrite Hhex. cbn [bind]. rewrite (parseBytea_escape_run _ _ _ Hp).
  rewrite parseBytea_escape_step. unfold parseBytea_iter.
  rewrite index_cons_0. cbn [bind]. rewrite byte_eqb_refl.
  rewrite len_cons. pose proof (len_nonneg rest).
  destruct (Z.ltb_spec (1 + len rest) 4) as [_|H4]; [|lia].
  destruct rest as [|x rest].
  - reflexivity.
  - rewrite index_1. cbn [startsWith] in Hbs. cbn [bind]. rewrite Hbs.
    destruct (2 <=? 1 + len (x :: rest)); reflexivity.
Qed.

Lemma parseBytea_truncated_escape_witness :
  strings.IndexByte (B "ab") backslash = -1 /\
  len (B "12") < 3 /\
  startsWith backslash (B "12") = false /\
  (B "ab" = [] -> startsWith "x" (B "12") = false) /\
  parseBytea (B "ab" ++ backslash :: B "12")
  = Fault "invalid bytea sequence %v" [AStr (backslash :: B "12")].
Proof.
  split; [reflexivity|]. split; [reflexivity|]. split; [reflexivity|].
  split; [discriminate|].
  apply (parseBytea_truncated_escape (B "ab") (B "12")); reflexivity.
Defined.

(** X10. An escape of three octal digits is read as one byte when its
    value is at most 255; a larger value, from 400 to 777 in octal, is a
    fault of the range of the number. *)
Theorem parseBytea_octal (a b c : Z) :
  0 <= a <= 7 -> 0 <= b <= 7 -> 0 <= c <= 7 ->
  let digits := [fmt.octDigit a; fmt.octDigit b; fmt.octDigit c] in
  parseBytea (backslash :: digits) =
  if 64 * a + 8 * b + c <=? 255
  then Ok [byte_of_Z (64 * a + 8 * b + c)]
  else Fault "could not parse bytea value: %s"
             [AErr (NumError "ParseInt" digits ErrRange)].
Proof.
  intros Ha Hb Hc.
  assert (Ea : a = 0 \/ a = 1 \/ a = 2 \/ a = 3 \/ a = 4 \/ a = 5 \/ a = 6 \/ a = 7) by lia.
  assert (Eb : b = 0 \/ b = 1 \/ b = 2 \/ b = 3 \/ b = 4 \/ b = 5 \/ b = 6 \/ b = 7) by lia.
  assert (Ec : c = 0 \/ c = 1 \/ c = 2 \/ c = 3 \/ c = 4 \/ c = 5 \/ c = 6 \/ c = 7) by lia.
  clear Ha Hb Hc.
  destruct Ea as [->|[->|[->|[->|[->|[->|[->| ->]]]]]]];
    destruct Eb as [->|[->|[->|[->|[->|[->|[->| ->]]]]]]];
    destruct Ec as [->|[->|[->|[->|[->|[->|[->| ->]]]]]]];
    vm_compute; reflexivity.
Qed.

Lemma parseBytea_octal_witness :
  parseBytea (backslash :: B "101") = Ok (B "A") /\
  parseBytea (backslash :: B "400")
  = Fault "could not parse bytea value: %s"
          [AErr (NumError "ParseInt" (B "400") ErrRange)].
Proof.
  split.
  - apply (parseBytea_octal 1 0 1); lia.
  - apply (parseBytea_octal 4 0 0); lia.
Defined.

(** ** Integers through the codec *)


(** The digits of a decimal number, most significant first. *)
Fixpoint uint_bytes (d : Decimal.uint) : bytes :=
  match d with
  | Decimal.Nil => []
  | Decimal.D0 d => "0"%byte :: uint_bytes d
  | Decimal.D1 d => "1"%byte :: uint_bytes d
  | Decimal.D2 d => "2"%byte :: uint_bytes d
  | Decimal.D3 d => "3"%byte :: uint_bytes d
  | Decimal.D4 d => "4"%byte :: uint_bytes d
  | Decimal.D5 d => "5"%byte :: uint_bytes d
  | Decimal.D6 d => "6"%byte :: uint_bytes d
  | Decimal.D7 d => "7"%byte :: uint_bytes d
  | Decimal.D8 d => "8"%byte :: uint_bytes d
  | Decimal.D9 d => "9"%byte :: uint_bytes d
  end.

(** Their value, read from the left onto [n]. *)
Fixpoint uint_val (d : Decimal.uint) (n : Z) : Z :=
  match d with
  | Decimal.Nil => n
  | Decimal.D0 d => uint_val d (n * 10 + 0)
  | Decimal.D1 d => uint_val d (n * 10 + 1)
  | Decimal.D2 d => uint_val d (n * 10 + 2)
  | Decimal.D3 d => uint_val d (n * 10 + 3)
  | Decimal.D4 d => uint_val d (n * 10 + 4)
  | Decimal.D5 d => uint_val d (n * 10 + 5)
  | Decimal.D6 d => uint_val d (n * 10 + 6)
  | Decimal.D7 d => uint_val d (n * 10 + 7)
  | Decimal.D8 d => uint_val d (n * 10 + 8)
  | Decimal.D9 d => uint_val d (n * 10 + 9)
  end.

Lemma B_String (a : Ascii.ascii) (s : string) :
  B (String a s) = Ascii.byte_of_ascii a :: B s.
Proof. reflexivity. Qed.

Lemma B_string_of_uint (d : Decimal.uint) :
  B (NilEmpty.string_of_uint d) = uint_bytes d.
Proof.
  induction d; cbn [NilEmpty.string_of_uint uint_bytes]; [reflexivity|..];
    rewrite <- IHd; reflexivity.
Qed.

Lemma uint_val_ge (d : Decimal.uint) (n : Z) : 0 <= n -> n <= uint_val d n.
Proof.
  revert n. induction d; intros n Hn; cbn [uint_val]; [lia|..];
    match goal with
    | |- _ <= uint_val _ ?m => specialize (IHd m ltac:(lia)); lia
    end.
Qed.

Lemma parseDigits_uint (d : Decimal.uint) (maxVal n : Z) :
  0 <= n -> uint_val d n <= maxVal ->
  strconv.parseDigits (uint_bytes d) 10 maxVal n = inl (uint_val d n).
Proof.
  revert n. induction d; intros n Hn Hmax; cbn [uint_val uint_bytes] in *;
    [reflexivity|..];
    match type of Hmax with
    | uint_val _ ?m <= _ =>
        pose proof (uint_val_ge d m ltac:(lia)) as Hge;
        cbn [strconv.parseDigits];
        match goal with
        | |- context [strconv.digitVal ?c] =>
            let v := eval vm_compute in (strconv.digitVal c) in
            change (strconv.digitVal c) with v
        end;
        cbv beta iota;
        match goal with
        | |- context [10 <=? ?k] => change (10 <=? k) with false
        end;
        cbv beta iota;
        destruct (Z.ltb_spec maxVal m) as [Hlt|_]; [lia|];
        apply IHd; lia
    end.
Qed.

Lemma of_uint_acc_val (d : Decimal.uint) (acc : positive) :
  Z.pos (Pos.of_uint_acc d acc) = uint_val d (Z.pos acc).
Proof.
  revert acc. induction d; intros acc; cbn [Pos.of_uint_acc uint_val];
    [reflexivity|..]; rewrite IHd; f_equal; lia.
Qed.

Lemma of_uint_val (d : Decimal.uint) : Z.of_N (Pos.of_uint d) = uint_val d 0.
Proof.
  induction d; cbn [Pos.of_uint uint_val]; [reflexivity|exact IHd|..];
    cbn [Z.of_N]; rewrite of_uint_acc_val; reflexivity.
Qed.

Lemma to_uint_val (p : positive) : uint_val (Pos.to_uint p) 0 = Z.pos p.
Proof. rewrite <- of_uint_val, DecimalPos.Unsigned.of_to. reflexivity. Qed.

(** The digits of a positive number start with a digit, not a sign. *)
Lemma uint_bytes_head (d : Decimal.uint) :
  d <> Decimal.Nil ->
  exists c tl, uint_bytes d = c :: tl /\
               Byte.eqb c "-" = false /\ Byte.eqb c "+" = false.
Proof.
  destruct d; [congruence|..]; intros _; do 2 eexists; repeat split.
Qed.

Lemma FormatInt_pos (p : positive) :
  strconv.FormatInt (Z.pos p) = uint_bytes (Pos.to_uint p).
Proof.
  unfold strconv.FormatInt. cbn [Z.to_int NilZero.string_of_int].
  unfold NilZero.string_of_uint.
  pose proof (DecimalPos.Unsigned.to_uint_nonnil p) as Hn.
  destruct (Pos.to_uint p) eqn:E; [congruence|..]; rewrite <- E;
    apply B_string_of_uint.
Qed.

Lemma FormatInt_neg (p : positive) :
  strconv.FormatInt (Z.neg p) = "-"%byte :: uint_bytes (Pos.to_uint p).
Proof.
  unfold strconv.FormatInt. cbn [Z.to_int NilZero.string_of_int].
  unfold NilZero.string_of_uint.
  pose proof (DecimalPos.Unsigned.to_uint_nonnil p) as Hn.
  destruct (Pos.to_uint p) eqn:E; [congruence|..]; rewrite <- E;
    rewrite B_String;
    (apply (f_equal2 cons); [reflexivity|apply B_string_of_uint]).
Qed.

Lemma ParseUint_uint (p : positive) (bitSize : Z) :
  Z.pos p <= 2 ^ bitSize - 1 ->
  strconv.ParseUint (uint_bytes (Pos.to_uint p)) 10 bitSize = inl (Z.pos p).
Proof.
  intros H. unfold strconv.ParseUint.
  rewrite parseDigits_uint by (rewrite ?to_uint_val; lia).
  rewrite to_uint_val.
  destruct (uint_bytes_head (Pos.to_uint p) (DecimalPos.Unsigned.to_uint_nonnil p))
    as (c & tl & -> & _).
  reflexivity.
Qed.

(** Reading back the decimal text of a 64-bit integer. *)
Lemma ParseInt_FormatInt (v : Z) :
  - 2 ^ 63 <= v < 2 ^ 63 ->
  strconv.ParseInt (strconv.FormatInt v) 10 64 = inl v.
Proof.
  intros Hv. destruct v as [|p|p].
  - reflexivity.
  - rewrite FormatInt_pos.
    pose proof (ParseUint_uint p 64 ltac:(lia)) as HU.
    destruct (uint_bytes_head (Pos.to_uint p) (DecimalPos.Unsigned.to_uint_nonnil p))
      as (c & tl & E & Hm & Hp).
    rewrite E in HU |- *. unfold strconv.ParseInt. rewrite Hm, Hp. cbn [orb].
    rewrite HU. cbn [negb andb].
    destruct (Z.leb_spec (2 ^ (64 - 1)) (Z.pos p)) as [H|_]; [lia|reflexivity].
  - rewrite FormatInt_neg.
    pose proof (ParseUint_uint p 64 ltac:(lia)) as HU.
    unfold strconv.ParseInt. rewrite byte_eqb_refl, orb_true_r.
    rewrite HU. cbn [negb andb].
    destruct (Z.ltb_spec (2 ^ (64 - 1)) (Z.pos p)) as [H|_]; [lia|reflexivity].
Qed.

(** ** Values through [encode] and [decode] *)

Lemma parseBytea_of_encoded (serverVersion : Z) (v : bytes) :
  parseBytea (encodeBytea serverVersion v) = Ok v.
Proof.
  unfold encodeBytea. destruct (90000 <=? serverVersion).
  - apply parseBytea_hex_encoded.
  - rewrite encodeBytea_escape_flat. cbn [app]. unfold parseBytea.
    rewrite (encoded_escape_not_hex v). apply parseBytea_escape_encoded.
Qed.

Section RoundTrips.

Variable FormatFloat : float64 -> byte -> Z -> Z -> bytes.
Variable float64_of_float32 : float32 -> float64.
Variable ParseFloat : bytes -> Z -> float64 + goError.
Variable time_Format : time.Time -> bytes -> bytes.
Variable time_Parse : bytes -> bytes -> time.Time + goError.

Local Abbreviation encode_ := (encode FormatFloat float64_of_float32 time_Format).
Local Abbreviation decode_ := (decode ParseFloat time_Parse).

(** X11. A byte sequence encoded for the binary-blob type is decoded, for
    that type, to the same byte sequence, whatever the server versions of
    the two connections; a string encoded for that type is decoded to its
    bytes. *)
Theorem decode_encode_bytea (ps ps' : parameterStatus) (v : bytes) :
  (exists text, encode_ ps (VBytes v) oid.T_bytea = Ok text /\
                decode_ ps' text oid.T_bytea = Ok (VBytes v)) /\
  (exists text, encode_ ps (VString v) oid.T_bytea = Ok text /\
                decode_ ps' text oid.T_bytea = Ok (VBytes v)).
Proof.
  split; eexists; (split; [reflexivity|]); unfold decode;
    change (oid.T_bytea =? oid.T_bytea) with true; cbv beta iota.
  - now rewrite parseBytea_of_encoded.
  - now rewrite parseBytea_hex_encoded.
Qed.

(** X12. A boolean is encoded as the word true or false, of which
    [decode] reads the first letter: it is decoded to the same boolean. *)
Theorem decode_encode_bool (ps ps' : parameterStatus) (b : bool) (typ : oid.Oid) :
  exists text, encode_ ps (VBool b) typ = Ok text /\
               decode_ ps' text oid.T_bool = Ok (VBool b).
Proof.
  eexists. split; [reflexivity|]. destruct b; reflexivity.
Qed.

(** X13. A 64-bit integer is encoded as its decimal text, whatever the
    target type, and decoded from it to the same integer for each of the
    three integer types. *)
Theorem decode_encode_int64
    (ps ps' : parameterStatus) (v : Z) (typ typ' : oid.Oid) :
  - 2 ^ 63 <= v < 2 ^ 63 ->
  typ' = oid.T_int8 \/ typ' = oid.T_int2 \/ typ' = oid.T_int4 ->
  exists text, encode_ ps (VInt64 v) typ = Ok text /\
               decode_ ps' text typ' = Ok (VInt64 v).
Proof.
  intros Hv Htyp. eexists. split; [reflexivity|].
  unfold decode, fmt.Sprintf_d.
  destruct Htyp as [->|[->| ->]]; cbv beta iota;
    match goal with
    | |- context [strconv.ParseInt ?s 10 64] =>
        rewrite (ParseInt_FormatInt v Hv)
    end; reflexivity.
Qed.

End RoundTrips.

Lemma decode_encode_int64_witness :
  exists text,
    encode (fun _ _ _ _ => []) (fun f => f) (fun _ _ => [])
           (mkParameterStatus 90000 None) (VInt64 (-42)) oid.T_int4 = Ok text /\
    decode (fun _ _ => inl 0) (fun _ _ => inl time.zero)
           (mkParameterStatus 90000 None) text oid.T_int4 = Ok (VInt64 (-42)).
Proof.
  apply (decode_encode_int64 (fun _ _ _ _ => []) (fun f => f) (fun _ _ => inl 0)
           (fun _ _ => []) (fun _ _ => inl time.zero)
           (mkParameterStatus 90000 None) (mkParameterStatus 90000 None)
           (-42) oid.T_int4 oid.T_int4).
  - lia.
  - right; right; reflexivity.
Defined.

(** ** Reading a timestamp of a given shape *)

Lemma sub_app_r (p q : bytes) (a b : Z) :
  0 <= a -> a <= b -> sub (p ++ q) (len p + a) (len p + b) = sub q a b.
Proof.
  intros Ha Hab. unfold sub, len.
  replace (Z.of_nat (List.length p) + b - (Z.of_nat (List.length p) + a)) with (b - a) by lia.
  replace (Z.to_nat (Z.of_nat (List.length p) + a))
    with (Z.to_nat a + List.length p)%nat by lia.
  rewrite <- skipn_skipn. rewrite skipn_app, skipn_all, Nat.sub_diag. reflexivity.
Qed.

(** A slice of [p ++ q] that lies within [q]. *)
Lemma slice_app_at (p q : bytes) (lo hi a b : Z) :
  lo = len p + a -> hi = len p + b -> 0 <= a -> a <= b -> b <= len q ->
  slice (p ++ q) lo hi = Ok (sub q a b).
Proof.
  intros -> -> Ha Hab Hb. pose proof (len_nonneg p).
  rewrite slice_ok by (rewrite ?len_app; lia).
  fold (sub (p ++ q) (len p + a) (len p + b)). now rewrite sub_app_r.
Qed.

(** A slice of [p ++ q] that ends past the end of [q]. *)
Lemma slice_app_past (p q : bytes) (lo hi : Z) :
  len p + len q < hi ->
  slice (p ++ q) lo hi = Panic (SliceBounds lo hi (len p + len q)).
Proof.
  intros H. rewrite slice_panic by (rewrite len_app; lia). now rewrite len_app.
Qed.

Lemma mustAtoi_eval (s : bytes) (n : Z) : strconv.Atoi s = inl n -> mustAtoi s = Ok n.
Proof. intros H. unfold mustAtoi. now rewrite H. Qed.

Lemma expect_eval (str char : bytes) (pos : Z) :
  slice str pos (pos + 1) = Ok char -> expect str char pos = Ok tt.
Proof. intros H. unfold expect. rewrite H. cbn [bind]. now rewrite bytes_eqb_refl. Qed.

Lemma at_is_end (str : bytes) (pos n : Z) (lit : bytes) :
  len str <= pos -> at_is str pos n lit = Ok false.
Proof. intros H. unfold at_is. destruct (Z.ltb_spec pos (len str)); [lia|reflexivity]. Qed.

(** The date at the head of a text: a year without a hyphen, and two
    fields of two bytes between single hyphens. *)
Lemma parseTs_date_eval (ys : bytes) (m1 m2 d1 d2 : byte) (rest : bytes) (y m d : Z) :
  strings.IndexByte ys "-" = -1 ->
  strconv.Atoi ys = inl y ->
  strconv.Atoi [m1; m2] = inl m ->
  strconv.Atoi [d1; d2] = inl d ->
  parseTs_date (ys ++ "-"%byte :: m1 :: m2 :: "-"%byte :: d1 :: d2 :: rest)
  = Ok (len ys, y, m, d).
Proof.
  intros Hys Hy Hm Hd. unfold parseTs_date, strings.IndexRune, slice_to.
  rewrite (IndexByte_app_found _ _ _ Hys).
  set (L := "-"%byte :: m1 :: m2 :: "-"%byte :: d1 :: d2 :: rest).
  assert (HL : 6 <= len L).
  { subst L. rewrite !len_cons. pose proof (len_nonneg rest). lia. }
  fold (slice_to (ys ++ L) (len ys)). rewrite slice_to_app. cbn [bind].
  rewrite (mustAtoi_eval _ _ Hy). cbn [bind].
  rewrite (slice_app_at ys L _ _ 1 3) by lia.
  change (sub L 1 3) with [m1; m2]. cbn [bind].
  rewrite (mustAtoi_eval _ _ Hm). cbn [bind].
  rewrite (expect_eval (ys ++ L) (B "-") (len ys + 3))
    by (rewrite (slice_app_at ys L _ _ 3 4) by lia; reflexivity).
  cbn [bind].
  rewrite (slice_app_at ys L _ _ 4 6) by lia.
  change (sub L 4 6) with [d1; d2]. cbn [bind].
  rewrite (mustAtoi_eval _ _ Hd). reflexivity.
Qed.

(** The time of day after the six bytes of the month and the day. *)
Lemma parseTs_clock_eval
    (ys : bytes) (x0 x1 x2 x3 x4 x5 h1 h2 i1 i2 s1 s2 : byte) (rest : bytes)
    (h mi s : Z) :
  strconv.Atoi [h1; h2] = inl h ->
  strconv.Atoi [i1; i2] = inl mi ->
  strconv.Atoi [s1; s2] = inl s ->
  parseTs_clock
    (ys ++ x0 :: x1 :: x2 :: x3 :: x4 :: x5 :: " "%byte :: h1 :: h2
        :: ":"%byte :: i1 :: i2 :: ":"%byte :: s1 :: s2 :: rest)
    (len ys)
  = Ok (h, mi, s).
Proof.
  intros Hh Hmi Hs. unfold parseTs_clock. change (len (B "01-01")) with 5.
  set (L := x0 :: x1 :: x2 :: x3 :: x4 :: x5 :: " "%byte :: h1 :: h2
              :: ":"%byte :: i1 :: i2 :: ":"%byte :: s1 :: s2 :: rest).
  assert (HL : 15 <= len L).
  { subst L. rewrite !len_cons. pose proof (len_nonneg rest). lia. }
  rewrite len_app.
  destruct (Z.ltb_spec (len ys + 5 + 1) (len ys + len L)) as [_|Hge]; [|lia].
  rewrite (expect_eval (ys ++ L) (B " ") (len ys + 3 + 3))
    by (rewrite (slice_app_at ys L _ _ 6 7) by lia; reflexivity).
  cbn [bind].
  rewrite (expect_eval (ys ++ L) (B ":") (len ys + 3 + 3 + 3))
    by (rewrite (slice_app_at ys L _ _ 9 10) by lia; reflexivity).
  cbn [bind].
  rewrite (slice_app_at ys L _ _ 7 9) by lia.
  change (sub L 7 9) with [h1; h2]. cbn [bind].
  rewrite (mustAtoi_eval _ _ Hh). cbn [bind].
  rewrite (expect_eval (ys ++ L) (B ":") (len ys + 3 + 3 + 3 + 3))
    by (rewrite (slice_app_at ys L _ _ 12 13) by lia; reflexivity).
  cbn [bind].
  rewrite (slice_app_at ys L _ _ 10 12) by lia.
  change (sub L 10 12) with [i1; i2]. cbn [bind].
  rewrite (mustAtoi_eval _ _ Hmi). cbn [bind].
  rewrite (slice_app_at ys L _ _ 13 15) by lia.
  change (sub L 13 15) with [s1; s2]. cbn [bind].
  rewrite (mustAtoi_eval _ _ Hs). reflexivity.
Qed.

(** [strconv.Atoi] returns an [int]. *)
Lemma parseDigits_nonneg (s : bytes) (base maxVal n v : Z) :
  0 <= n -> 0 <= base ->
  strconv.parseDigits s base maxVal n = inl v -> 0 <= v.
Proof.
  revert n. induction s as [|c s IH]; intros n Hn Hb; cbn [strconv.parseDigits].
  - now intros [= <-].
  - destruct (strconv.digitVal c) as [d|] eqn:Ed; [|discriminate].
    destruct (base <=? d); [discriminate|].
    destruct (maxVal <? n * base + d); [discriminate|].
    apply IH; [|assumption].
    unfold strconv.digitVal in Ed. pose proof (byte_val_range c).
    repeat match type of Ed with
           | (if ?b then _ else _) = _ => destruct b eqn:?
           end; try discriminate; injection Ed as <-; nia.
Qed.

Lemma Atoi_range (s : bytes) (n : Z) :
  strconv.Atoi s = inl n -> - 2 ^ 63 <= n < 2 ^ 63.
Proof.
  unfold strconv.Atoi, strconv.ParseInt, strconv.IntSize.
  destruct s as [|c s]; [discriminate|].
  destruct (strconv.ParseUint _ 10 64) as [un|[|]] eqn:EU; try discriminate.
  assert (0 <= un).
  { unfold strconv.ParseUint in EU.
    destruct (if Byte.eqb c "+" || Byte.eqb c "-" then s else c :: s);
      [discriminate|].
    now apply parseDigits_nonneg in EU. }
  change (2 ^ (64 - 1)) with (2 ^ 63).
  destruct (Byte.eqb c "-"); cbn [negb andb].
  - destruct (Z.ltb_spec (2 ^ 63) un); [discriminate|]. intros [= <-]. lia.
  - destruct (Z.leb_spec (2 ^ 63) un); [discriminate|]. intros [= <-]. lia.
Qed.

Lemma wrap64_id (z : Z) : - 2 ^ 63 <= z < 2 ^ 63 -> wrap64 z = z.
Proof.
  intros H. unfold wrap64. rewrite Z.mod_small; lia.
Qed.

(** X14. A date and a time of day, with a year that [strconv.Atoi] reads
    and two-byte fields that it reads, are the instant with these fields,
    without nanoseconds, at offset zero: the separators are where the
    parser expects them and nothing is left. *)
Theorem parseTs_date_time
    (ys : bytes) (m1 m2 d1 d2 h1 h2 i1 i2 s1 s2 : byte) (y m d h mi s : Z) :
  strings.IndexByte ys "-" = -1 ->
  strconv.Atoi ys = inl y ->
  strconv.Atoi [m1; m2] = inl m ->
  strconv.Atoi [d1; d2] = inl d ->
  strconv.Atoi [h1; h2] = inl h ->
  strconv.Atoi [i1; i2] = inl mi ->
  strconv.Atoi [s1; s2] = inl s ->
  parseTs None (ys ++ B "-" ++ [m1; m2] ++ B "-" ++ [d1; d2] ++ B " "
                   ++ [h1; h2] ++ B ":" ++ [i1; i2] ++ B ":" ++ [s1; s2])
  = Ok (time.Date y m d h mi s 0 (time.FixedZone [] 0)).
Proof.
  intros Hys Hy Hm Hd Hh Hmi Hs.
  change (parseTs None
            (ys ++ "-"%byte :: m1 :: m2 :: "-"%byte :: d1 :: d2 :: " "%byte :: h1 :: h2
                :: ":"%byte :: i1 :: i2 :: ":"%byte :: s1 :: s2 :: [])
          = Ok (time.Date y m d h mi s 0 (time.FixedZone [] 0))).
  match goal with
  | |- parseTs None ?str = _ =>
      assert (Hlen : len str = len ys + 15) by (rewrite len_app; reflexivity)
  end.
  unfold parseTs, parseTs_sections.
  rewrite (parseTs_date_eval ys m1 m2 d1 d2 _ y m d Hys Hy Hm Hd). cbn [bind].
  rewrite (parseTs_clock_eval ys _ _ _ _ _ _ h1 h2 i1 i2 s1 s2 [] h mi s Hh Hmi Hs).
  cbn [bind].
  change (len (B "01-01 00:00:00")) with 14.
  unfold parseTs_frac, parseTs_zone, parseTs_era.
  repeat (rewrite at_is_end by lia; cbn [bind orb]).
  rewrite Hlen.
  destruct (Z.ltb_spec (len ys + 14 + 1) (len ys + 15)) as [Hlt|_]; [lia|].
  cbn [bind]. unfold parseTs_instant. cbn [tsTzOff tsBcSign tsYear tsMonth tsDay
    tsHour tsMinute tsSecond tsNanoSec].
  unfold int_mul. rewrite Z.mul_1_l, (wrap64_id y (Atoi_range _ _ Hy)). reflexivity.
Qed.

Lemma parseTs_date_time_witness :
  parseTs None (B "2024-03-05 13:04:05")
  = Ok (time.Date 2024 3 5 13 4 5 0 (time.FixedZone [] 0)).
Proof.
  apply (parseTs_date_time (B "2024") "0" "3" "0" "5" "1" "3" "0" "4" "0" "5"
           2024 3 5 13 4 5); reflexivity.
Defined.

(** X15. A date that is followed by a space and at most two more bytes,
    as a date with the BC designation and no time of day is, aborts with a
    run-time error: the parser takes the space for the start of a time of
    day and slices past the end of the text for the colon. *)
Theorem parseTs_date_BC_panics
    (currentLocation : option time.Location)
    (ys : bytes) (m1 m2 d1 d2 : byte) (tail : bytes) (y m d : Z) :
  strings.IndexByte ys "-" = -1 ->
  strconv.Atoi ys = inl y ->
  strconv.Atoi [m1; m2] = inl m ->
  strconv.Atoi [d1; d2] = inl d ->
  len tail <= 2 ->
  parseTs currentLocation
    (ys ++ B "-" ++ [m1; m2] ++ B "-" ++ [d1; d2] ++ B " " ++ tail)
  = Panic (SliceBounds (len ys + 9) (len ys + 10) (len ys + 7 + len tail)).
Proof.
  intros Hys Hy Hm Hd Htail.
  change (parseTs currentLocation
            (ys ++ "-"%byte :: m1 :: m2 :: "-"%byte :: d1 :: d2 :: " "%byte :: tail)
          = Panic (SliceBounds (len ys + 9) (len ys + 10) (len ys + 7 + len tail))).
  unfold parseTs, parseTs_sections.
  rewrite (parseTs_date_eval ys m1 m2 d1 d2 _ y m d Hys Hy Hm Hd). cbn [bind].
  unfold parseTs_clock. change (len (B "01-01")) with 5.
  set (L := "-"%byte :: m1 :: m2 :: "-"%byte :: d1 :: d2 :: " "%byte :: tail).
  assert (HL : len L = 7 + len tail) by (subst L; rewrite !len_cons; lia).
  pose proof (len_nonneg tail). rewrite len_app.
  destruct (Z.ltb_spec (len ys + 5 + 1) (len ys + len L)) as [_|Hge]; [|lia].
  rewrite (expect_eval (ys ++ L) (B " ") (len ys + 3 + 3))
    by (rewrite (slice_app_at ys L _ _ 6 7) by lia; reflexivity).
  cbn [bind]. unfold expect at 1.
  rewrite (slice_app_past ys L) by lia. cbn [bind].
  do 2 f_equal; lia.
Qed.

Lemma parseTs_date_BC_panics_witness :
  parseTs None (B "0044-01-01 BC") = Panic (SliceBounds 13 14 13).
Proof.
  apply (parseTs_date_BC_panics None (B "0044") "0" "1" "0" "1" (B "BC") 44 1 1);
    reflexivity || (cbn; lia).
Defined.

(** ** The numbers [strconv.Atoi] reads *)

Lemma digitVal_range (c : byte) (d : Z) : strconv.digitVal c = Some d -> 0 <= d.
Proof.
  unfold strconv.digitVal. pose proof (byte_val_range c).
  repeat match goal with
         | |- (if ?b then _ else _) = _ -> _ => destruct b eqn:?
         end; try discriminate; intros [= <-];
    repeat match goal with
           | E : (_ && _) = true |- _ => apply andb_true_iff in E as [? ?]
           end; lia.
Qed.

(** The digits read onto [n] give a number of as many more digits. *)
Lemma parseDigits_bound (s : bytes) (maxVal n v : Z) :
  0 <= n ->
  strconv.parseDigits s 10 maxVal n = inl v ->
  n * 10 ^ len s <= v < (n + 1) * 10 ^ len s.
Proof.
  revert n. induction s as [|c s IH]; intros n Hn; cbn [strconv.parseDigits].
  - intros [= <-]. rewrite len_nil. cbn. lia.
  - destruct (strconv.digitVal c) as [d|] eqn:Ed; [|discriminate].
    apply digitVal_range in Ed.
    destruct (Z.leb_spec 10 d) as [|Hd]; [discriminate|].
    destruct (maxVal <? n * 10 + d); [discriminate|].
    intros H. apply IH in H; [|lia].
    rewrite len_cons, Z.pow_add_r by (pose proof (len_nonneg s); lia).
    change (10 ^ 1) with 10. pose proof (Z.pow_pos_nonneg 10 (len s) ltac:(lia) (len_nonneg s)).
    nia.
Qed.

(** A text without a sign is read as a number of as many digits. *)
Lemma Atoi_unsigned_bound (c : byte) (s : bytes) (n : Z) :
  Byte.eqb c "-" = false -> Byte.eqb c "+" = false ->
  strconv.Atoi (c :: s) = inl n -> 0 <= n < 10 ^ len (c :: s).
Proof.
  intros Hm Hp. unfold strconv.Atoi, strconv.ParseInt, strconv.IntSize.
  rewrite Hm, Hp. cbn [orb negb andb].
  destruct (strconv.ParseUint (c :: s) 10 64) as [un|[|]] eqn:EU; try discriminate.
  unfold strconv.ParseUint in EU. apply parseDigits_bound in EU; [|lia].
  destruct (2 ^ (64 - 1) <=? un); [discriminate|]. intros [= <-]. lia.
Qed.

(** A field of two bytes is a number from -9 to 99. *)
Lemma Atoi_two_range (a b : byte) (n : Z) :
  strconv.Atoi [a; b] = inl n -> -9 <= n <= 99.
Proof.
  destruct (Byte.eqb a "-") eqn:Hm; [|destruct (Byte.eqb a "+") eqn:Hp].
  - unfold strconv.Atoi, strconv.ParseInt, strconv.IntSize. rewrite Hm.
    rewrite orb_true_r. cbn [negb andb].
    destruct (strconv.ParseUint [b] 10 64) as [un|[|]] eqn:EU; try discriminate.
    unfold strconv.ParseUint in EU. apply parseDigits_bound in EU; [|lia].
    change (len [b]) with 1 in EU.
    destruct (2 ^ (64 - 1) <? un); [discriminate|]. intros [= <-]. lia.
  - unfold strconv.Atoi, strconv.ParseInt, strconv.IntSize. rewrite Hm, Hp.
    cbn [orb negb andb].
    destruct (strconv.ParseUint [b] 10 64) as [un|[|]] eqn:EU; try discriminate.
    unfold strconv.ParseUint in EU. apply parseDigits_bound in EU; [|lia].
    change (len [b]) with 1 in EU.
    destruct (2 ^ (64 - 1) <=? un); [discriminate|]. intros [= <-]. lia.
  - intros H. apply (Atoi_unsigned_bound a [b] n Hm Hp) in H.
    change (len [a; b]) with 2 in H. lia.
Qed.

(** ** The optional sections after a date and a time of day *)

Lemma at_is_app (p q : bytes) (pos n : Z) (lit : bytes) (a : Z) :
  pos = len p + a -> 0 <= a -> 0 < n -> a + n <= len q ->
  at_is (p ++ q) pos n lit = Ok (bytes_eqb (sub q a (a + n)) lit).
Proof.
  intros -> Ha Hn Hq. unfold at_is. rewrite len_app. pose proof (len_nonneg p).
  destruct (Z.ltb_spec (len p + a) (len p + len q)) as [_|Hge]; [|lia].
  rewrite (slice_app_at p q _ _ a (a + n)) by lia. reflexivity.
Qed.

Lemma scale_eval (k : Z) :
  0 <= k ->
  int_quo 1000000000 (math.Pow10_int k)
  = Ok (if k <=? 9 then 10 ^ (9 - k) else 0).
Proof.
  intros Hk. unfold int_quo, math.Pow10_int.
  destruct (Z.ltb_spec k 0) as [|_]; [lia|].
  destruct (Z.leb_spec k 9) as [H9|H9].
  - assert (E : k = 0 \/ k = 1 \/ k = 2 \/ k = 3 \/ k = 4 \/ k = 5 \/ k = 6 \/
                k = 7 \/ k = 8 \/ k = 9) by lia.
    destruct E as [->|[->|[->|[->|[->|[->|[->|[->|[->| ->]]]]]]]]]; reflexivity.
  - destruct (Z.leb_spec k 18) as [H18|H18]; [|reflexivity].
    assert (Hp : 10 ^ 10 <= 10 ^ k) by (apply Z.pow_le_mono_r; lia).
    destruct (Z.eqb_spec (10 ^ k) 0) as [E|_]; [lia|].
    rewrite Z.quot_small by lia. reflexivity.
Qed.

Section AfterDateTime.

Variable ys : bytes.
Variables m1 m2 d1 d2 h1 h2 i1 i2 s1 s2 : byte.
Variables y m d h mi s : Z.
Hypothesis Hys : strings.IndexByte ys "-" = -1.
Hypothesis Hy : strconv.Atoi ys = inl y.
Hypothesis Hm : strconv.Atoi [m1; m2] = inl m.
Hypothesis Hd : strconv.Atoi [d1; d2] = inl d.
Hypothesis Hh : strconv.Atoi [h1; h2] = inl h.
Hypothesis Hmi : strconv.Atoi [i1; i2] = inl mi.
Hypothesis Hs : strconv.Atoi [s1; s2] = inl s.

(** The date and the time of day, everything but the year: fifteen
    bytes. *)
Definition dateTimeTail (rest : bytes) : bytes :=
  "-"%byte :: m1 :: m2 :: "-"%byte :: d1 :: d2 :: " "%byte :: h1 :: h2
    :: ":"%byte :: i1 :: i2 :: ":"%byte :: s1 :: s2 :: rest.

Lemma dateTimeTail_len (rest : bytes) : len (dateTimeTail rest) = 15 + len rest.
Proof. unfold dateTimeTail. rewrite !len_cons. lia. Qed.

(** After a date and a time of day the optional sections are read from
    the fifteenth byte past the year on. *)
Lemma parseTs_sections_after (rest : bytes) :
  let str := ys ++ dateTimeTail rest in
  parseTs_sections str =
  ('(nanoSec, r1) <- parseTs_frac str (len ys + 15);;
   '(tzOff, r2) <- parseTs_zone str r1;;
   '(bcSign, r3) <- parseTs_era str r2;;
   Ok (mkTsFields y m d h mi s nanoSec tzOff bcSign, r3)).
Proof.
  cbv zeta. unfold parseTs_sections, dateTimeTail.
  rewrite (parseTs_date_eval ys m1 m2 d1 d2 _ y m d Hys Hy Hm Hd). cbn [bind].
  rewrite (parseTs_clock_eval ys _ _ _ _ _ _ h1 h2 i1 i2 s1 s2 rest h mi s Hh Hmi Hs).
  cbn [bind]. change (len (B "01-01 00:00:00")) with 14.
  replace (len ys + 14 + 1) with (len ys + 15) by lia. reflexivity.
Qed.

Lemma year_no_wrap : int_mul 1 y = y.
Proof.
  unfold int_mul. rewrite Z.mul_1_l. apply wrap64_id, (Atoi_range _ _ Hy).
Qed.

(** The sign of a zone offset, as [parseTs] reads it. *)
Definition zoneSign (sg : byte) : Z := if Byte.eqb sg "-" then -1 else 1.

Ltac eval_eqb :=
  match goal with
  | |- context [bytes_eqb ?a ?b] =>
      let v := eval vm_compute in (bytes_eqb a b) in
      change (bytes_eqb a b) with v
  end.

Ltac eval_sub :=
  match goal with
  | |- context [sub ?l ?a ?b] =>
      let v := eval cbv in (sub l a b) in
      change (sub l a b) with v
  end.

Lemma zone_offset_no_wrap (sign zh zm zs : Z) :
  sign = -1 \/ sign = 1 -> -9 <= zh <= 99 -> -9 <= zm <= 99 -> -9 <= zs <= 99 ->
  int_add (int_add (int_mul (int_mul sign zh) (60 * 60)) (int_mul zm 60)) zs
  = sign * zh * 3600 + zm * 60 + zs.
Proof.
  intros Hsign Rh Rm Rs. unfold int_add, int_mul. change (60 * 60) with 3600.
  rewrite (wrap64_id (sign * zh)) by lia.
  rewrite (wrap64_id (sign * zh * 3600)) by lia.
  rewrite (wrap64_id (zm * 60)) by lia.
  rewrite (wrap64_id (sign * zh * 3600 + zm * 60)) by lia.
  apply wrap64_id. lia.
Qed.

(** X16. After a date and a time of day, a zone offset of a sign, two
    bytes of hours, a colon and two bytes of minutes gives the offset of
    the signed hours plus the minutes: the sign multiplies the hours only,
    so west of Greenwich the minutes move the zone east. *)
Theorem parseTs_zone_hours_minutes (sg z1 z2 z3 z4 : byte) (zh zm : Z) :
  sg = "-"%byte \/ sg = "+"%byte ->
  strconv.Atoi [z1; z2] = inl zh ->
  strconv.Atoi [z3; z4] = inl zm ->
  parseTs None (ys ++ dateTimeTail ([sg] ++ [z1; z2] ++ B ":" ++ [z3; z4]))
  = Ok (time.Date y m d h mi s 0
          (time.FixedZone [] (zoneSign sg * zh * 3600 + zm * 60))).
Proof.
  intros Hsg Hzh Hzm. unfold parseTs.
  rewrite (parseTs_sections_after ([sg] ++ [z1; z2] ++ B ":" ++ [z3; z4])).
  set (L := dateTimeTail ([sg] ++ [z1; z2] ++ B ":" ++ [z3; z4])).
  assert (HL : len L = 21) by (subst L; rewrite dateTimeTail_len; reflexivity).
  assert (Hlen : len (ys ++ L) = len ys + 21) by (rewrite len_app; lia).
  pose proof (Atoi_two_range _ _ _ Hzh) as Rh.
  pose proof (Atoi_two_range _ _ _ Hzm) as Rm.
  assert (Hoff : int_add (int_add (int_mul (int_mul (zoneSign sg) zh) (60 * 60))
                                  (int_mul zm 60)) 0
                 = zoneSign sg * zh * 3600 + zm * 60).
  { rewrite zone_offset_no_wrap; try lia.
    unfold zoneSign. destruct (Byte.eqb sg "-"); tauto. }
  destruct Hsg as [-> | ->].
  all: unfold parseTs_frac;
    rewrite (at_is_app ys L _ 1 _ 15) by lia; eval_eqb; cbn [bind];
    unfold parseTs_zone; cbv zeta;
    rewrite (at_is_app ys L _ 1 (B "-") 15) by lia; eval_eqb; cbn [bind];
    try (rewrite (at_is_app ys L _ 1 (B "+") 15) by lia; eval_eqb; cbn [bind]);
    cbn [orb];
    rewrite (slice_app_at ys L _ _ 15 16) by lia; eval_sub; cbn [bind];
    repeat eval_eqb; cbn [bind];
    rewrite (slice_app_at ys L _ _ 16 18) by lia; eval_sub; cbn [bind];
    rewrite (mustAtoi_eval _ _ Hzh); cbn [bind];
    rewrite (at_is_app ys L _ 1 (B ":") 18) by lia; eval_eqb; cbn [bind];
    rewrite (slice_app_at ys L _ _ 19 21) by lia; eval_sub; cbn [bind];
    rewrite (mustAtoi_eval _ _ Hzm); cbn [bind];
    rewrite (at_is_end (ys ++ L) (len ys + 15 + 6)) by lia; cbn [bind];
    unfold parseTs_era; rewrite at_is_end by lia; cbn [bind];
    rewrite Hlen;
    (destruct (Z.ltb_spec (len ys + 15 + 3 + 3) (len ys + 21)) as [|_]; [lia|]);
    cbn [bind]; unfold parseTs_instant;
    cbn [tsTzOff tsBcSign tsYear tsMonth tsDay tsHour tsMinute tsSecond tsNanoSec];
    rewrite year_no_wrap;
    match type of Hoff with
    | context [zoneSign ?b] =>
        let v := eval vm_compute in (zoneSign b) in
        change (zoneSign b) with v in Hoff at 1
    end;
    rewrite Hoff; reflexivity.
Qed.

Lemma dateTimeTail_frac (fs : bytes) :
  sub (dateTimeTail ("."%byte :: fs)) 16 (16 + len fs) = fs.
Proof.
  unfold sub. replace (16 + len fs - 16) with (len fs) by lia.
  change (Z.to_nat 16) with 16%nat. cbn [dateTimeTail skipn].
  unfold len. rewrite Nat2Z.id. apply firstn_all.
Qed.

Lemma IndexAny_head (c : byte) (fs chars : bytes) :
  strings.IndexAny (c :: fs) chars = -1 -> strings.inSet chars c = false.
Proof.
  cbn [strings.IndexAny]. destruct (strings.inSet chars c); [discriminate|reflexivity].
Qed.

(** X17. After a date and a time of day, a full stop and a fraction of
    up to nine digits gives the nanoseconds of the fraction.  With ten
    digits or more the scale, a billion divided by the power of ten of the
    number of digits, is zero, and so are the nanoseconds. *)
Theorem parseTs_fraction (fs : bytes) (fracSec : Z) :
  strings.IndexAny fs (B "-+ ") = -1 ->
  strconv.Atoi fs = inl fracSec ->
  parseTs None (ys ++ dateTimeTail (B "." ++ fs))
  = Ok (time.Date y m d h mi s
          (if len fs <=? 9 then fracSec * 10 ^ (9 - len fs) else 0)
          (time.FixedZone [] 0)).
Proof.
  intros Hany Hfrac. unfold parseTs.
  rewrite (parseTs_sections_after (B "." ++ fs)).
  change (B "." ++ fs) with ("."%byte :: fs).
  set (L := dateTimeTail ("."%byte :: fs)).
  pose proof (len_nonneg fs) as Hfs.
  assert (HL : len L = 16 + len fs).
  { subst L. rewrite dateTimeTail_len, len_cons. lia. }
  assert (Hlen : len (ys ++ L) = len ys + 16 + len fs) by (rewrite len_app; lia).
  assert (Hnano : int_mul fracSec (if len fs <=? 9 then 10 ^ (9 - len fs) else 0)
                  = if len fs <=? 9 then fracSec * 10 ^ (9 - len fs) else 0).
  { unfold int_mul. destruct (Z.leb_spec (len fs) 9) as [H9|H9].
    - apply wrap64_id. destruct fs as [|c fs']; [discriminate|].
      pose proof (IndexAny_head _ _ _ Hany) as Hc. cbn in Hc.
      apply orb_false_iff in Hc as [Hc1 Hc]. apply orb_false_iff in Hc as [Hc2 _].
      pose proof (Atoi_unsigned_bound c fs' fracSec Hc1 Hc2 Hfrac) as [B0 B1].
      set (k := len (c :: fs')) in *.
      assert (Hpow : 10 ^ k * 10 ^ (9 - k) = 10 ^ 9).
      { rewrite <- Z.pow_add_r by lia. f_equal. lia. }
      assert (0 < 10 ^ (9 - k)) by (apply Z.pow_pos_nonneg; lia).
      change (10 ^ 9) with 1000000000 in Hpow. nia.
    - rewrite Z.mul_0_r. reflexivity. }
  unfold parseTs_frac.
  rewrite (at_is_app ys L _ 1 _ 15) by lia. eval_eqb. cbn [bind].
  unfold slice_from.
  rewrite (slice_app_at ys L _ _ 16 (16 + len fs)) by lia.
  unfold L at 1. rewrite dateTimeTail_frac. fold L. cbn [bind].
  rewrite Hany. change (-1 <? 0) with true. cbv iota.
  replace (len (ys ++ L) - (len ys + 15 + 1)) with (len fs) by lia.
  rewrite (slice_app_at ys L _ _ 16 (16 + len fs)) by lia.
  unfold L at 1. rewrite dateTimeTail_frac. fold L. cbn [bind].
  rewrite (mustAtoi_eval _ _ Hfrac). cbn [bind].
  rewrite scale_eval by lia. cbn [bind]. rewrite Hnano.
  unfold parseTs_zone. cbv zeta.
  repeat (rewrite at_is_end by lia; cbn [bind orb]).
  unfold parseTs_era. rewrite at_is_end by lia. cbn [bind].
  rewrite Hlen.
  destruct (Z.ltb_spec (len ys + 15 + (len fs + 1)) (len ys + 16 + len fs)) as [|_];
    [lia|].
  cbn [bind]. unfold parseTs_instant.
  cbn [tsTzOff tsBcSign tsYear tsMonth tsDay tsHour tsMinute tsSecond tsNanoSec].
  rewrite year_no_wrap. reflexivity.
Qed.

Lemma year_nonneg : 0 <= y.
Proof.
  destruct ys as [|c tl] eqn:E; [discriminate Hy|].
  assert (Hc : Byte.eqb c "-" = false).
  { cbn [strings.IndexByte] in Hys. destruct (Byte.eqb c "-"); [discriminate|reflexivity]. }
  revert Hy. unfold strconv.Atoi, strconv.ParseInt, strconv.IntSize. rewrite Hc.
  destruct (strconv.ParseUint _ 10 64) as [un|[|]] eqn:EU; try discriminate.
  assert (0 <= un).
  { unfold strconv.ParseUint in EU.
    destruct (if Byte.eqb c "+" || false then tl else c :: tl); [discriminate|].
    now apply parseDigits_nonneg in EU. }
  cbn [negb andb]. destruct (2 ^ (64 - 1) <=? un); [discriminate|].
  intros [= <-]. assumption.
Qed.

(** X18. After a date and a time of day, the BC designation negates the
    year. *)
Theorem parseTs_BC_negates_year :
  parseTs None (ys ++ dateTimeTail (B " BC"))
  = Ok (time.Date (- y) m d h mi s 0 (time.FixedZone [] 0)).
Proof.
  unfold parseTs. rewrite (parseTs_sections_after (B " BC")).
  set (L := dateTimeTail (B " BC")).
  assert (HL : len L = 18) by (subst L; rewrite dateTimeTail_len; reflexivity).
  assert (Hlen : len (ys ++ L) = len ys + 18) by (rewrite len_app; lia).
  unfold parseTs_frac.
  rewrite (at_is_app ys L _ 1 _ 15) by lia. eval_eqb. cbn [bind].
  unfold parseTs_zone. cbv zeta.
  rewrite (at_is_app ys L _ 1 (B "-") 15) by lia. eval_eqb. cbn [bind].
  rewrite (at_is_app ys L _ 1 (B "+") 15) by lia. eval_eqb. cbn [bind orb].
  unfold parseTs_era.
  rewrite (at_is_app ys L _ 3 _ 15) by lia. eval_eqb. cbn [bind].
  rewrite Hlen.
  destruct (Z.ltb_spec (len ys + 15 + 3) (len ys + 18)) as [|_]; [lia|].
  cbn [bind]. unfold parseTs_instant.
  cbn [tsTzOff tsBcSign tsYear tsMonth tsDay tsHour tsMinute tsSecond tsNanoSec].
  replace (int_mul (-1) y) with (- y); [reflexivity|].
  unfold int_mul. pose proof year_nonneg. pose proof (Atoi_range _ _ Hy).
  rewrite wrap64_id; lia.
Qed.

End AfterDateTime.

Lemma parseTs_zone_hours_minutes_witness :
  parseTs None (B "2024-03-05 13:04:05-07:30")
  = Ok (time.Date 2024 3 5 13 4 5 0 (time.FixedZone [] (-23400))).
Proof.
  apply (parseTs_zone_hours_minutes (B "2024") "0" "3" "0" "5" "1" "3" "0" "4" "0" "5"
           2024 3 5 13 4 5 eq_refl eq_refl eq_refl eq_refl eq_refl eq_refl eq_refl
           "-" "0" "7" "3" "0" 7 30); [now left|reflexivity|reflexivity].
Defined.

Lemma parseTs_fraction_witness :
  parseTs None (B "2024-03-05 13:04:05.25")
  = Ok (time.Date 2024 3 5 13 4 5 250000000 (time.FixedZone [] 0)) /\
  parseTs None (B "2024-03-05 13:04:05.1234567891")
  = Ok (time.Date 2024 3 5 13 4 5 0 (time.FixedZone [] 0)).
Proof.
  split.
  - apply (parseTs_fraction (B "2024") "0" "3" "0" "5" "1" "3" "0" "4" "0" "5"
             2024 3 5 13 4 5 eq_refl eq_refl eq_refl eq_refl eq_refl eq_refl eq_refl
             (B "25") 25); reflexivity.
  - apply (parseTs_fraction (B "2024") "0" "3" "0" "5" "1" "3" "0" "4" "0" "5"
             2024 3 5 13 4 5 eq_refl eq_refl eq_refl eq_refl eq_refl eq_refl eq_refl
             (B "1234567891") 1234567891); reflexivity.
Defined.

Lemma parseTs_BC_negates_year_witness :
  parseTs None (B "0044-03-15 12:00:00 BC")
  = Ok (time.Date (-44) 3 15 12 0 0 0 (time.FixedZone [] 0)).
Proof.
  apply (parseTs_BC_negates_year (B "0044") "0" "3" "1" "5" "1" "2" "0" "0" "0" "0"
           44 3 15 12 0 0); reflexivity.
Defined.

(** ** The session's location *)

Lemma Date_loc (year month day hour min sec nsec : Z) (l : time.Location) :
  time.loc (time.Date year month day hour min sec nsec l) = l.
Proof.
  unfold time.Date.
  repeat match goal with
         | |- context [let '(_, _) := ?x in _] => destruct x
         end.
  reflexivity.
Qed.

(** X19. The session's location changes how the instant is presented and
    nothing else: with a location [parseTs] accepts the same texts as
    without one, and returns the same Unix time, the same nanoseconds and
    the same offset from UTC. *)
Theorem parseTs_location_keeps_instant
    (l : time.Location) (str : bytes) (t : time.Time) :
  parseTs (Some l) str = Ok t ->
  exists t0,
    parseTs None str = Ok t0 /\
    time.unixSec t = time.unixSec t0 /\
    time.nsec t = time.nsec t0 /\
    snd (time.Zone t) = snd (time.Zone t0).
Proof.
  unfold parseTs. intros H. bind_inv H p Hsec. destruct p as [f r].
  bind_inv H u Hend. injection H as <-.
  exists (parseTs_instant None f). rewrite Hsec. cbn [bind]. rewrite Hend. cbn [bind].
  split; [reflexivity|]. unfold parseTs_instant.
  set (t0 := time.Date _ _ _ _ _ _ _ (time.FixedZone [] (tsTzOff f))).
  assert (Hz : time.Zone t0 = ([], tsTzOff f)).
  { unfold time.Zone. subst t0. rewrite Date_loc. reflexivity. }
  destruct (time.Zone (time.In t0 l)) as [nm newOff] eqn:EZ.
  destruct (Z.eqb_spec newOff (tsTzOff f)) as [E|E].
  - repeat split. rewrite EZ, Hz. exact E.
  - repeat split.
Qed.

Lemma parseTs_location_keeps_instant_witness :
  exists t0,
    parseTs None (B "2024-03-05 13:04:05+01") = Ok t0 /\
    time.unixSec (parseTs_instant (Some (time.FixedZone (B "CET") 3600))
                    (mkTsFields 2024 3 5 13 4 5 0 3600 1))
      = time.unixSec t0 /\
    time.nsec (parseTs_instant (Some (time.FixedZone (B "CET") 3600))
                 (mkTsFields 2024 3 5 13 4 5 0 3600 1))
      = time.nsec t0 /\
    snd (time.Zone (parseTs_instant (Some (time.FixedZone (B "CET") 3600))
                      (mkTsFields 2024 3 5 13 4 5 0 3600 1)))
      = snd (time.Zone t0).
Proof.
  apply (parseTs_location_keeps_instant (time.FixedZone (B "CET") 3600)
           (B "2024-03-05 13:04:05+01")).
  vm_compute. reflexivity.
Defined.

(** ** A time of day cut short *)

(** X20. An accepted text is either a date alone, six bytes past the
    first hyphen, or goes on for at least the nine bytes of a time of day:
    a text that stops within the time of day is never accepted. *)
Theorem parseTs_Ok_length
    (currentLocation : option time.Location) (str : bytes) (t : time.Time) :
  parseTs currentLocation str = Ok t ->
  let monSep := strings.IndexByte str "-" in
  0 <= monSep /\ (len str = monSep + 6 \/ monSep + 15 <= len str).
Proof.
  unfold parseTs, parseTs_sections. intros H.
  bind_inv H p Hsec. clear H.
  bind_inv Hsec p0 Hp0. destruct p0 as [[[i year] month] day].
  bind_inv Hsec p1 Hp1. destruct p1 as [[hour minute] second]. clear Hsec.
  pose proof (parseTs_date_Ok _ _ _ _ _ Hp0) as (<- & H0 & H6).
  apply parseTs_clock_shape in Hp1. cbv zeta. split; [assumption|].
  destruct Hp1 as [Hshort|(H15 & _)]; [left; lia|right; assumption].
Qed.

Lemma parseTs_Ok_length_witness :
  0 <= strings.IndexByte (B "2024-03-05") "-" /\
  (len (B "2024-03-05") = strings.IndexByte (B "2024-03-05") "-" + 6 \/
   strings.IndexByte (B "2024-03-05") "-" + 15 <= len (B "2024-03-05")).
Proof.
  apply (parseTs_Ok_length None (B "2024-03-05")
           (time.Date 2024 3 5 0 0 0 0 (time.FixedZone [] 0))).
  vm_compute. reflexivity.
Defined.

(** ** The length of the encoding of a byte sequence *)

Lemma encodeBytea_byte_length (b : byte) :
  1 <= len (encodeBytea_byte b) <= 4.
Proof. destruct b; cbv; split; congruence. Qed.

(** X21. The hex format takes two bytes for the marker and two for every
    byte; the escape format takes from one to four bytes for every
    byte. *)
Theorem encodeBytea_length (serverVersion : Z) (v : bytes) :
  if 90000 <=? serverVersion
  then len (encodeBytea serverVersion v) = 2 + 2 * len v
  else len v <= len (encodeBytea serverVersion v) <= 4 * len v.
Proof.
  unfold encodeBytea. destruct (90000 <=? serverVersion).
  - rewrite len_app. unfold fmt.Sprintf_x. rewrite EncodeToString_length. reflexivity.
  - rewrite encodeBytea_escape_flat. cbn [app].
    induction v as [|b v IH]; [cbn; lia|].
    cbn [flat_map]. rewrite len_app, len_cons.
    pose proof (encodeBytea_byte_length b). lia.
Qed.

(** ** The hex format read back *)

Lemma hex_Decode_length (n : nat) (s result : bytes) :
  (List.length s <= n)%nat ->
  hex.Decode s = inl result -> len s = 2 * len result.
Proof.
  revert s result. induction n as [|n IH]; intros s result Hn.
  - destruct s; [|cbn in Hn; lia]. intros [= <-]. reflexivity.
  - destruct s as [|p [|q s]]; cbn [hex.Decode].
    + intros [= <-]. reflexivity.
    + destruct (hex.fromHexChar p); discriminate.
    + destruct (hex.fromHexChar p); [|discriminate].
      destruct (hex.fromHexChar q); [|discriminate].
      destruct (hex.Decode s) as [dst|] eqn:E; [|discriminate].
      intros [= <-]. apply IH in E; [|cbn in Hn; lia].
      rewrite !len_cons, E. lia.
Qed.

(** X22. When [parseBytea] accepts a value in the hex format it returns
    one byte for every two characters after the marker: a value with an
    odd number of them is never accepted. *)
Theorem parseBytea_hex_length (s result : bytes) :
  parseBytea (hexMarker ++ s) = Ok result -> len s = 2 * len result.
Proof.
  unfold parseBytea, hexMarker. cbn [app].
  rewrite !len_cons. pose proof (len_nonneg s).
  destruct (Z.leb_spec 2 (1 + (1 + len s))) as [_|]; [|lia].
  rewrite slice_to_2. cbn [bind]. rewrite bytes_eqb_refl.
  rewrite slice_from_2. cbn [bind].
  destruct (hex.Decode s) as [r|e] eqn:E; [|discriminate].
  intros [= <-]. exact (hex_Decode_length (List.length s) s r (le_n _) E).
Qed.

Lemma parseBytea_hex_length_witness :
  parseBytea (hexMarker ++ B "4a4B") = Ok (B "JK") /\ len (B "4a4B") = 2 * len (B "JK").
Proof.
  split; [reflexivity|].
  apply (parseBytea_hex_length (B "4a4B") (B "JK")). reflexivity.
Defined.
